(** * Network Firewall rule group: lifecycle handlers, finder and delete waiter

    A shallow embedding of the [aws_networkfirewall_rule_group] resource
    ([resourceRuleGroupCreate], [resourceRuleGroupRead],
    [resourceRuleGroupUpdate], [resourceRuleGroupDelete],
    [FindRuleGroupByARN], [statusRuleGroup], [waitRuleGroupDeleted]) together
    with the library routines these handlers run on.

    Conventions.
    - A Go pointer is an [option]; [None] is [nil].  Dereferencing [nil]
      is the outcome [Panics].
    - A Go [error] value is [option error]; [None] is the [nil] error.
    - [time.Duration] is a [Z] counting nanoseconds.
    - The remote service is a deterministic oracle: the reply to a call is
      a function of the number of calls issued before it and of the
      request; each call also takes some time ([latency]).  Every call is
      appended, with its reply, to the trace carried by the [World].
    - The request context is never cancelled. *)

From Stdlib Require Import ZArith String List Bool Lia.
From stdpp Require Import base decidable option list numbers strings gmap.

Import ListNotations.
Local Open Scope string_scope.
Local Open Scope Z_scope.

(** ** Durations *)

Definition Duration := Z.
Definition Millisecond : Duration := 1000000.
Definition Second : Duration := 1000 * Millisecond.
Definition Minute : Duration := 60 * Second.

(** ** Requests that carry only an identifier *)

(** [networkfirewall.DescribeRuleGroupInput] and
    [networkfirewall.DeleteRuleGroupInput], with the one field the handlers
    fill in. *)
Record DescribeRuleGroupInput : Type :=
  { describe_RuleGroupArn : option string }.

Record DeleteRuleGroupInput : Type :=
  { delete_RuleGroupArn : option string }.

(** ** Errors *)

(** What a [retry.NotFoundError] or an empty-result error remembers of the
    request ([LastRequest interface{}]): the handlers pass either the
    identifier or the describe input. *)
Inductive Request : Type :=
| ReqId (id : string)
| ReqDescribe (input : DescribeRuleGroupInput).

(** [awserr.Error]: what the SDK client returns for a failed call. *)
Record awserr : Type := { Code : string; Message : string }.

#[local] Set Warnings "-register-all".

(** The error values that occur in this resource:
    - [AwsError]: an [awserr.Error] returned by the SDK client;
    - [errorString]: the value of [errors.New];
    - [NotFoundError], [UnexpectedStateError], [TimeoutError]: the three
      error structs of the plugin SDK's [retry] package (each unwraps to
      its [LastError]);
    - [EmptyResultError]: [tfresource.EmptyResultError]. *)
Inductive error : Type :=
| AwsError (e : awserr)
| errorString (s : string)
| NotFoundError (LastError : option error) (LastRequest : option Request)
    (Retries : Z)
| EmptyResultError (LastRequest : Request)
| UnexpectedStateError (LastError : option error) (State : string)
    (ExpectedState : list string)
| TimeoutError (LastError : option error) (LastState : string)
    (Timeout : Duration) (ExpectedState : list string).

Definition ErrCodeResourceNotFoundException : string := "ResourceNotFoundException".
Definition ErrCodeInvalidOperationException : string := "InvalidOperationException".
Definition ResourceStatusDeleting : string := "DELETING".

(** [errors.As(err, &awsErr)]: the first [awserr.Error] on the unwrap
    chain. *)
Fixpoint asAwsErr (e : error) : option awserr :=
  match e with
  | AwsError a => Some a
  | NotFoundError (Some e') _ _ => asAwsErr e'
  | UnexpectedStateError (Some e') _ _ => asAwsErr e'
  | TimeoutError (Some e') _ _ _ => asAwsErr e'
  | _ => None
  end.

(** [strings.Contains]. *)
Fixpoint Contains (s sub : string) : bool :=
  String.prefix sub s ||
  match s with
  | EmptyString => false
  | String _ s' => Contains s' sub
  end.

(** [tfawserr.ErrCodeEquals(err, code)]. *)
Definition ErrCodeEquals (err : option error) (code : string) : bool :=
  match err with
  | None => false
  | Some e =>
      match asAwsErr e with
      | Some a => String.eqb (Code a) code
      | None => false
      end
  end.

(** [tfawserr.ErrMessageContains(err, code, message)]. *)
Definition ErrMessageContains (err : option error) (code message : string) : bool :=
  match err with
  | None => false
  | Some e =>
      match asAwsErr e with
      | Some a => String.eqb (Code a) code && Contains (Message a) message
      | None => false
      end
  end.

(** [errors.As(err, &notFound)] with [notFound : *retry.NotFoundError]:
    a [NotFoundError] matches, an [EmptyResultError] converts itself
    through its [As] method, the other [retry] errors unwrap. *)
Fixpoint asNotFound (e : error) : bool :=
  match e with
  | NotFoundError _ _ _ => true
  | EmptyResultError _ => true
  | UnexpectedStateError (Some e') _ _ => asNotFound e'
  | TimeoutError (Some e') _ _ _ => asNotFound e'
  | _ => false
  end.

(** Modelled from the spec: [tfresource.NotFound] (package
    internal/tfresource, not among the sources).  The Finder's not-found
    value is "a distinct, first-class value so callers can special-case
    already gone"; the helper answers whether the error, or one it wraps,
    is a [retry.NotFoundError]. *)
Definition NotFound (err : option error) : bool :=
  match err with
  | None => false
  | Some e => asNotFound e
  end.

(** Modelled from the spec: [tfresource.NewEmptyResultError] (package
    internal/tfresource, not among the sources): the error for a reply that
    carries no resource; it counts as not found (see [asNotFound]). *)
Definition NewEmptyResultError (lastRequest : Request) : error :=
  EmptyResultError lastRequest.

(** Modelled from the spec: [tfresource.TimedOut] (package
    internal/tfresource, not among the sources): the error is itself a
    [retry.TimeoutError] (not a wrapped one) with no last error. *)
Definition TimedOut (err : option error) : bool :=
  match err with
  | Some (TimeoutError None _ _ _) => true
  | _ => false
  end.

(** [aws.StringValue] and [aws.String]. *)
Definition StringValue (p : option string) : string := default "" p.
Definition String_ (v : string) : option string := Some v.

(** ** The nested blocks

    The conversion of the nested [rule_group] and
    [encryption_configuration] blocks to and from the SDK structures
    (the [expand...] and [flatten...] families) is carried as a
    parameter: the lifecycle logic only passes these values along and
    tests them for [nil]. *)
Class NestedBlocks : Type := {
  (** the [map[string]interface{}] under [rule_group.0] *)
  tfMap : Type;
  tfMap_eq_dec :: EqDecision tfMap;
  (** [networkfirewall.RuleGroup] *)
  RuleGroup : Type;
  (** the fields [expandRuleGroup] fills in for a non-nil map *)
  expandRuleGroupFields : tfMap -> RuleGroup;
  (** the map [flattenRuleGroup] builds for a non-nil rule group *)
  flattenRuleGroupFields : RuleGroup -> tfMap;
  (** an element of the [encryption_configuration] list *)
  EncryptionBlock : Type;
  EncryptionBlock_eq_dec :: EqDecision EncryptionBlock;
  (** [networkfirewall.EncryptionConfiguration] *)
  EncryptionConfiguration : Type;
  expandEncryptionConfiguration :
    list EncryptionBlock -> option EncryptionConfiguration;
  flattenEncryptionConfiguration :
    option EncryptionConfiguration -> list EncryptionBlock
}.

Section RuleGroupResource.

Context `{NestedBlocks}.

(** [expandRuleGroup]: [nil] for a [nil] map, a fresh structure otherwise. *)
Definition expandRuleGroup (tfMap : option tfMap) : option RuleGroup :=
  match tfMap with
  | None => None
  | Some m => Some (expandRuleGroupFields m)
  end.

(** [flattenRuleGroup]: the empty list for [nil], a one-element list
    otherwise. *)
Definition flattenRuleGroup (r : option RuleGroup) : list (option tfMap) :=
  match r with
  | None => []
  | Some rg => [Some (flattenRuleGroupFields rg)]
  end.

(** ** SDK structures *)

Definition Tag : Type := string * string.

Record RuleGroupResponse : Type := {
  resp_Capacity : option Z;
  resp_Description : option string;
  resp_EncryptionConfiguration : option EncryptionConfiguration;
  resp_RuleGroupArn : option string;
  resp_RuleGroupName : option string;
  resp_RuleGroupStatus : option string;
  resp_Tags : list Tag;
  resp_Type : option string
}.

Record CreateRuleGroupInput : Type := {
  create_Capacity : option Z;
  create_Description : option string;
  create_EncryptionConfiguration : option EncryptionConfiguration;
  create_RuleGroup : option RuleGroup;
  create_RuleGroupName : option string;
  create_Rules : option string;
  create_Tags : list Tag;
  create_Type : option string
}.

Record CreateRuleGroupOutput : Type := {
  created_RuleGroupResponse : option RuleGroupResponse;
  created_UpdateToken : option string
}.

Record DescribeRuleGroupOutput : Type := {
  described_RuleGroup : option RuleGroup;
  described_RuleGroupResponse : option RuleGroupResponse;
  described_UpdateToken : option string
}.

Record UpdateRuleGroupInput : Type := {
  update_Description : option string;
  update_EncryptionConfiguration : option EncryptionConfiguration;
  update_RuleGroup : option RuleGroup;
  update_RuleGroupArn : option string;
  update_Rules : option string;
  update_Type : option string;
  update_UpdateToken : option string
}.

Record UpdateRuleGroupOutput : Type := {
  updated_RuleGroupResponse : option RuleGroupResponse;
  updated_UpdateToken : option string
}.

Record DeleteRuleGroupOutput : Type := {
  deleted_RuleGroupResponse : option RuleGroupResponse
}.

(** ** The remote service, the clock and the trace *)

(** The client [*networkfirewall.NetworkFirewall]: for each operation the
    reply [(output, err)] to the call number [n] (counting all calls, from
    0), and the time that call takes.  A failed call carries an
    [awserr.Error]. *)
Record NetworkFirewall : Type := {
  CreateRuleGroup :
    nat -> CreateRuleGroupInput -> option CreateRuleGroupOutput * option awserr;
  DescribeRuleGroup :
    nat -> DescribeRuleGroupInput -> option DescribeRuleGroupOutput * option awserr;
  UpdateRuleGroup :
    nat -> UpdateRuleGroupInput -> option UpdateRuleGroupOutput * option awserr;
  DeleteRuleGroup :
    nat -> DeleteRuleGroupInput -> option DeleteRuleGroupOutput * option awserr;
  latency : nat -> N
}.

Inductive Event : Type :=
| CreateRuleGroupCall (input : CreateRuleGroupInput)
    (output : option CreateRuleGroupOutput) (err : option awserr)
| DescribeRuleGroupCall (input : DescribeRuleGroupInput)
    (output : option DescribeRuleGroupOutput) (err : option awserr)
| UpdateRuleGroupCall (input : UpdateRuleGroupInput)
    (output : option UpdateRuleGroupOutput) (err : option awserr)
| DeleteRuleGroupCall (input : DeleteRuleGroupInput)
    (output : option DeleteRuleGroupOutput) (err : option awserr).

Record World : Type := { now : Z; trace : list Event }.

(** ** Computations *)

(** A computation runs in a world and returns a value and the world after
    it, or panics (a [nil] dereference), or is cut off by the fuel of a
    loop ([Unfinished] is an outcome of the model only). *)
Inductive Outcome (A : Type) : Type :=
| Returns (a : A) (w : World)
| Panics (w : World)
| Unfinished.

Arguments Returns {A} a w.
Arguments Panics {A} w.
Arguments Unfinished {A}.

Definition M (A : Type) : Type := World -> Outcome A.

Definition ret {A} (a : A) : M A := fun w => Returns a w.

Definition bind {A B} (m : M A) (k : A -> M B) : M B :=
  fun w =>
    match m w with
    | Returns a w' => k a w'
    | Panics w' => Panics w'
    | Unfinished => Unfinished
    end.

Definition panic {A} : M A := fun w => Panics w.

(** Dereference of a pointer. *)
Definition deref {A} (p : option A) : M A :=
  match p with
  | Some a => ret a
  | None => panic
  end.

Notation "x <- m ;; k" := (bind m (fun x => k))
  (at level 100, m at next level, right associativity).

(** One call to the service: the reply of call number [length (trace w)],
    the clock advanced by the latency of that call, the call appended to
    the trace. *)
Definition call {I O : Type}
    (reply : nat -> I -> option O * option awserr)
    (event : I -> option O -> option awserr -> Event)
    (conn : NetworkFirewall) (input : I) : M (option O * option error) :=
  fun w =>
    let n := length (trace w) in
    Returns ((reply n input).1, AwsError <$> (reply n input).2)
      {| now := now w + Z.of_N (latency conn n);
         trace := trace w ++ [event input (reply n input).1 (reply n input).2] |}.

Definition CreateRuleGroupWithContext (conn : NetworkFirewall) :=
  call (CreateRuleGroup conn) CreateRuleGroupCall conn.
Definition DescribeRuleGroupWithContext (conn : NetworkFirewall) :=
  call (DescribeRuleGroup conn) DescribeRuleGroupCall conn.
Definition UpdateRuleGroupWithContext (conn : NetworkFirewall) :=
  call (UpdateRuleGroup conn) UpdateRuleGroupCall conn.
Definition DeleteRuleGroupWithContext (conn : NetworkFirewall) :=
  call (DeleteRuleGroup conn) DeleteRuleGroupCall conn.

(** ** Resource data *)

(** The attributes of the resource, with the Go types of the schema. *)
Record Attributes : Type := {
  attr_arn : string;
  attr_capacity : Z;
  attr_description : string;
  attr_encryption_configuration : list EncryptionBlock;
  attr_name : string;
  attr_rule_group : list (option tfMap);
  attr_rules : string;
  attr_type : string;
  attr_update_token : string
}.

(** [*schema.ResourceData]: the identifier, the new-resource mark, the
    attributes of the prior state and the attributes [d.Get] reads (the
    planned values, overwritten by [d.Set]); with it travel the tags the
    request context carries in ([GetTagsIn]) and out ([SetTagsOut]). *)
Record ResourceData : Type := {
  Id : string;
  IsNewResource : bool;
  prior : Attributes;
  planned : Attributes;
  TagsIn : list Tag;
  TagsOut : list Tag
}.

Definition SetId (v : string) (d : ResourceData) : ResourceData :=
  {| Id := v; IsNewResource := IsNewResource d; prior := prior d;
     planned := planned d; TagsIn := TagsIn d; TagsOut := TagsOut d |}.

(** [d.MarkNewResource()], which the plugin SDK calls before a create. *)
Definition MarkNewResource (d : ResourceData) : ResourceData :=
  {| Id := Id d; IsNewResource := true; prior := prior d;
     planned := planned d; TagsIn := TagsIn d; TagsOut := TagsOut d |}.

Definition Get {A} (key : Attributes -> A) (d : ResourceData) : A :=
  key (planned d).

(** [d.GetOk]: the value, and whether it is set to a non-zero value. *)
Definition GetOk_string (key : Attributes -> string) (d : ResourceData)
  : string * bool :=
  (Get key d, negb (String.eqb (Get key d) "")).

Definition GetOk_list {A} (key : Attributes -> list A) (d : ResourceData)
  : list A * bool :=
  (Get key d, match Get key d with [] => false | _ => true end).

(** [d.HasChange]: the prior and the planned value differ. *)
Definition HasChange {A} `{EqDecision A} (key : Attributes -> A)
    (d : ResourceData) : bool :=
  negb (bool_decide (key (prior d) = key (planned d))).

(** ** Diagnostics *)

(** [diag.Errorf(format, args..., err)]: one error diagnostic; the format,
    its string arguments and the error are kept apart. *)
Inductive Diagnostic : Type :=
| Errorf (format : string) (args : list string) (err : error).

Definition Diagnostics : Type := list Diagnostic.

(** ** The finder *)

Definition FindRuleGroupByARN (conn : NetworkFirewall) (arn : string)
  : M (option DescribeRuleGroupOutput * option error) :=
  let input := {| describe_RuleGroupArn := String_ arn |} in
  reply <- DescribeRuleGroupWithContext conn input ;;
  let '(output, err) := reply in
  if ErrCodeEquals err ErrCodeResourceNotFoundException then
    ret (None, Some (NotFoundError err (Some (ReqDescribe input)) 0))
  else
    match err with
    | Some e => ret (None, Some e)
    | None =>
        match output with
        | None => ret (None, Some (NewEmptyResultError (ReqDescribe input)))
        | Some o =>
            match described_RuleGroupResponse o with
            | None => ret (None, Some (NewEmptyResultError (ReqDescribe input)))
            | Some _ => ret (output, None)
            end
        end
    end.

(** ** Read *)

(** The eight [d.Set] calls of the read and [SetTagsOut]; a [nil] pointer
    sets the zero value.  ([d.Set] of [rule_group] does not fail: the value
    comes from [flattenRuleGroup].) *)
Definition setFromRemote (output : DescribeRuleGroupOutput)
    (response : RuleGroupResponse) (d : ResourceData) : ResourceData :=
  {| Id := Id d;
     IsNewResource := IsNewResource d;
     prior := prior d;
     planned :=
       {| attr_arn := StringValue (resp_RuleGroupArn response);
          attr_capacity := default 0 (resp_Capacity response);
          attr_description := StringValue (resp_Description response);
          attr_encryption_configuration :=
            flattenEncryptionConfiguration (resp_EncryptionConfiguration response);
          attr_name := StringValue (resp_RuleGroupName response);
          attr_rule_group := flattenRuleGroup (described_RuleGroup output);
          attr_rules := attr_rules (planned d);
          attr_type := StringValue (resp_Type response);
          attr_update_token := StringValue (described_UpdateToken output) |};
     TagsIn := TagsIn d;
     TagsOut := resp_Tags response |}.

Definition resourceRuleGroupRead (conn : NetworkFirewall) (d : ResourceData)
  : M (ResourceData * Diagnostics) :=
  found <- FindRuleGroupByARN conn (Id d) ;;
  let '(output, err) := found in
  err <- match err with
         | None =>
             o <- deref output ;;
             match described_RuleGroup o with
             | None => ret (Some (NewEmptyResultError (ReqId (Id d))))
             | Some _ => ret None
             end
         | Some _ => ret err
         end ;;
  if negb (IsNewResource d) && NotFound err then
    ret (SetId "" d, [])
  else
    match err with
    | Some e =>
        ret (d, [Errorf "reading NetworkFirewall Rule Group (%s): %s" [Id d] e])
    | None =>
        o <- deref output ;;
        response <- deref (described_RuleGroupResponse o) ;;
        ret (setFromRemote o response d, [])
    end.

(** ** Create *)

(** The test the handlers repeat on the [rule_group] attribute:
    [d.GetOk] succeeds, the list is not empty and its first element is not
    [nil]; then the block is expanded. *)
Definition configuredRuleGroup (d : ResourceData) : option RuleGroup :=
  match GetOk_list attr_rule_group d with
  | (Some m :: _, true) => expandRuleGroup (Some m)
  | _ => None
  end.

Definition createRuleGroupInput (d : ResourceData) : CreateRuleGroupInput :=
  {| create_Capacity := Some (Get attr_capacity d);
     create_Description :=
       (let '(v, ok) := GetOk_string attr_description d in
        if ok then String_ v else None);
     create_EncryptionConfiguration :=
       (let '(v, ok) := GetOk_list attr_encryption_configuration d in
        if ok then expandEncryptionConfiguration v else None);
     create_RuleGroup := configuredRuleGroup d;
     create_RuleGroupName := String_ (Get attr_name d);
     create_Rules :=
       (let '(v, ok) := GetOk_string attr_rules d in
        if ok then String_ v else None);
     create_Tags := TagsIn d;
     create_Type := String_ (Get attr_type d) |}.

Definition resourceRuleGroupCreate (conn : NetworkFirewall) (d : ResourceData)
  : M (ResourceData * Diagnostics) :=
  let name := Get attr_name d in
  let input := createRuleGroupInput d in
  reply <- CreateRuleGroupWithContext conn input ;;
  let '(output, err) := reply in
  match err with
  | Some e =>
      ret (d, [Errorf "creating NetworkFirewall Rule Group (%s): %s" [name] e])
  | None =>
      o <- deref output ;;
      response <- deref (created_RuleGroupResponse o) ;;
      resourceRuleGroupRead conn (SetId (StringValue (resp_RuleGroupArn response)) d)
  end.

(** ** Update *)

Definition with_Rules (v : option string) (i : UpdateRuleGroupInput)
  : UpdateRuleGroupInput :=
  {| update_Description := update_Description i;
     update_EncryptionConfiguration := update_EncryptionConfiguration i;
     update_RuleGroup := update_RuleGroup i;
     update_RuleGroupArn := update_RuleGroupArn i;
     update_Rules := v;
     update_Type := update_Type i;
     update_UpdateToken := update_UpdateToken i |}.

Definition with_RuleGroup (v : option RuleGroup) (i : UpdateRuleGroupInput)
  : UpdateRuleGroupInput :=
  {| update_Description := update_Description i;
     update_EncryptionConfiguration := update_EncryptionConfiguration i;
     update_RuleGroup := v;
     update_RuleGroupArn := update_RuleGroupArn i;
     update_Rules := update_Rules i;
     update_Type := update_Type i;
     update_UpdateToken := update_UpdateToken i |}.

(** The request the update handler builds, statement by statement. *)
Definition updateRuleGroupInput (d : ResourceData) : UpdateRuleGroupInput :=
  let input :=
    {| update_Description :=
         (let '(v, ok) := GetOk_string attr_description d in
          if ok then String_ v else None);
       update_EncryptionConfiguration :=
         expandEncryptionConfiguration (Get attr_encryption_configuration d);
       update_RuleGroup := None;
       update_RuleGroupArn := String_ (Id d);
       update_Rules := None;
       update_Type := String_ (Get attr_type d);
       update_UpdateToken := String_ (Get attr_update_token d) |} in
  let input :=
    if HasChange attr_rules d then
      with_Rules (String_ (Get attr_rules d)) input
    else if HasChange attr_rule_group d then
      with_RuleGroup (configuredRuleGroup d) input
    else input in
  match update_Rules input, update_RuleGroup input with
  | None, None =>
      let '(v, ok) := GetOk_string attr_rules d in
      if ok then with_Rules (String_ v) input
      else with_RuleGroup (configuredRuleGroup d) input
  | _, _ => input
  end.

(** [d.HasChanges("description", "encryption_configuration", "rule_group",
    "rules", "type")]. *)
Definition HasChanges_update (d : ResourceData) : bool :=
  HasChange attr_description d
  || HasChange attr_encryption_configuration d
  || HasChange attr_rule_group d
  || HasChange attr_rules d
  || HasChange attr_type d.

Definition resourceRuleGroupUpdate (conn : NetworkFirewall) (d : ResourceData)
  : M (ResourceData * Diagnostics) :=
  if HasChanges_update d then
    reply <- UpdateRuleGroupWithContext conn (updateRuleGroupInput d) ;;
    let '(_, err) := reply in
    match err with
    | Some e =>
        ret (d, [Errorf "updating NetworkFirewall Rule Group (%s): %s" [Id d] e])
    | None => resourceRuleGroupRead conn d
    end
  else resourceRuleGroupRead conn d.

(** ** Waiting for a state: [retry.StateChangeConf]

    [WaitForStateContext] of the plugin SDK runs the refresh loop in a
    goroutine and, in the caller, selects on the results, on the timeout
    and on the context.  With the clock of the [World] the run is
    sequential:
    - a sleep that would end at the timeout or later is cut at the
      timeout, and the caller returns a [TimeoutError] built from the
      last result it has received;
    - a refresh that starts before the timeout and returns before it is
      handled by the loop;
    - a refresh that starts before the timeout and returns in the
      [refreshGracePeriod] after it is the last one: the caller returns
      its result if it is done and a [TimeoutError] built from it
      otherwise;
    - a refresh that has not returned when the grace period ends is
      abandoned: the call stays in the trace, its result is not read.
    Where a result and the timeout are ready at the same instant, the
    timeout is taken.  [S] is the state of the variables the refresh
    closure captures. *)

Definition refreshGracePeriod : Duration := 30 * Second.

Record Result (R : Type) : Type := {
  res_Result : option R;
  res_State : string;
  res_Error : option error;
  res_Done : bool
}.

Arguments res_Result {R} _.
Arguments res_State {R} _.
Arguments res_Error {R} _.
Arguments res_Done {R} _.

Record StateChangeConf (R S : Type) : Type := {
  conf_Delay : Duration;
  conf_Pending : list string;
  conf_Refresh : S -> M ((option R * string * option error) * S);
  conf_Target : list string;
  conf_Timeout : Duration;
  conf_MinTimeout : Duration;
  conf_PollInterval : Duration;
  conf_NotFoundChecks : Z;
  conf_ContinuousTargetOccurence : Z
}.

Arguments conf_Delay {R S} _.
Arguments conf_Pending {R S} _.
Arguments conf_Refresh {R S} _.
Arguments conf_Target {R S} _.
Arguments conf_Timeout {R S} _.
Arguments conf_MinTimeout {R S} _.
Arguments conf_PollInterval {R S} _.
Arguments conf_NotFoundChecks {R S} _.
Arguments conf_ContinuousTargetOccurence {R S} _.

(** [time.After(d)] in the running goroutine. *)
Definition sleep (d : Duration) (w : World) : World :=
  {| now := now w + Z.max 0 d; trace := trace w |}.

Definition at_time (t : Z) (w : World) : World :=
  {| now := t; trace := trace w |}.

Section WaitForState.

Context {R S : Type} (conf : StateChangeConf R S).

(** The defaults set at the start of [WaitForStateContext]. *)
Definition notFoundChecks : Z :=
  if conf_NotFoundChecks conf =? 0 then 20 else conf_NotFoundChecks conf.

Definition continuousTargetOccurence : Z :=
  if conf_ContinuousTargetOccurence conf =? 0 then 1
  else conf_ContinuousTargetOccurence conf.

(** The [TimeoutError] built from the last result the caller has stored. *)
Definition timeoutError (lastResult : Result R) : error :=
  TimeoutError (res_Error lastResult) (res_State lastResult)
    (conf_Timeout conf) (conf_Target conf).

(** [for _, allowed := range conf.Target]: whether the loop returned done,
    then [found] and [targetOccurence]. *)
Fixpoint scanTarget (target : list string) (currentState : string)
    (found : bool) (targetOccurence : Z) : bool * bool * Z :=
  match target with
  | [] => (false, found, targetOccurence)
  | allowed :: rest =>
      if String.eqb currentState allowed then
        if continuousTargetOccurence =? targetOccurence + 1 then
          (true, true, targetOccurence + 1)
        else scanTarget rest currentState true (targetOccurence + 1)
      else scanTarget rest currentState found targetOccurence
  end.

(** [for _, allowed := range conf.Pending]. *)
Definition scanPending (currentState : string) (found : bool)
    (targetOccurence : Z) : bool * Z :=
  if existsb (String.eqb currentState) (conf_Pending conf) then (true, 0)
  else (found, targetOccurence).

(** The wait before the next refresh: exponential backoff, or the poll
    interval when one is set. *)
Definition nextWait (targetOccurence : Z) (wait : Duration) : Duration :=
  let wait := if targetOccurence =? 0 then wait * 2 else wait in
  if (0 <? conf_PollInterval conf) && (conf_PollInterval conf <? 180 * Second)
  then conf_PollInterval conf
  else if wait <? conf_MinTimeout conf then conf_MinTimeout conf
  else if 10 * Second <? wait then 10 * Second
  else wait.

(** The goroutine sends [r] and returns.  Before the timeout the caller
    returns the result and the error of [r]; in the grace period it returns
    them only when [r] is done and a [TimeoutError] otherwise. *)
Definition stop (late : bool) (r : Result R) (s : S)
  : M (option R * option error * S) :=
  if res_Done r then ret (res_Result r, res_Error r, s)
  else if late then ret (None, Some (timeoutError r), s)
  else ret (res_Result r, res_Error r, s).

(** One iteration of the refresh loop and the iterations after it.
    [result] is the last result sent to the caller, [first] tells the
    first iteration, [wait] is the sleep before this refresh. *)
Fixpoint refreshLoop (deadline : Z) (fuel : nat) (first : bool)
    (wait : Duration) (notfoundTick targetOccurence : Z)
    (result : Result R) (s : S) : M (option R * option error * S) :=
  match fuel with
  | O => fun _ => Unfinished
  | Datatypes.S fuel' =>
    fun w =>
    if deadline <=? now w + Z.max 0 wait then
      (* the timeout fires while the goroutine sleeps *)
      Returns (None, Some (timeoutError result), s)
        (at_time (Z.max (now w) deadline) w)
    else
      let w := sleep wait w in
      let wait := if first then 100 * Millisecond else wait in
      match conf_Refresh conf s w with
      | Unfinished => Unfinished
      | Panics w' => Panics w'
      | Returns (res, currentState, err, s') w' =>
        if deadline + refreshGracePeriod <=? now w' then
          (* the refresh outlasts the grace period and is abandoned *)
          Returns (None, Some (timeoutError result), s)
            (at_time (deadline + refreshGracePeriod) w')
        else
          let late := deadline <=? now w' in
          let result :=
            {| res_Result := res; res_State := currentState;
               res_Error := err; res_Done := false |} in
          let done :=
            {| res_Result := res; res_State := currentState;
               res_Error := err; res_Done := true |} in
          let failed (e : error) :=
            {| res_Result := res; res_State := currentState;
               res_Error := Some e; res_Done := false |} in
          (* the next iteration; in the grace period the goroutine sends
             its result and returns at the closed cancel channel *)
          let continue (wait : Duration) (notfoundTick targetOccurence : Z) :=
            if late then stop late result s' w'
            else refreshLoop deadline fuel' false wait notfoundTick
                   targetOccurence result s' w' in
          match err with
          | Some _ => stop late result s' w'
          | None =>
            match res, conf_Target conf with
            | None, [] =>
                (* waiting for the absence of a thing *)
                if continuousTargetOccurence =? targetOccurence + 1 then
                  stop late done s' w'
                else continue wait notfoundTick (targetOccurence + 1)
            | None, _ =>
                if notFoundChecks <? notfoundTick + 1 then
                  stop late
                    (failed (NotFoundError err None (notfoundTick + 1))) s' w'
                else
                  continue (nextWait targetOccurence wait)
                    (notfoundTick + 1) targetOccurence
            | Some _, _ =>
                let '(isDone, found, targetOccurence) :=
                  scanTarget (conf_Target conf) currentState false
                    targetOccurence in
                if isDone then stop late done s' w'
                else
                  let '(found, targetOccurence) :=
                    scanPending currentState found targetOccurence in
                  if negb found
                     && match conf_Pending conf with [] => false | _ => true end
                  then
                    stop late
                      (failed (UnexpectedStateError err currentState
                                 (conf_Target conf))) s' w'
                  else
                    continue (nextWait targetOccurence wait) 0 targetOccurence
            end
          end
      end
  end.

(** The shortest sleep between two refreshes, and with it the number of
    iterations that fit before the timeout. *)
Definition minWait : Duration :=
  if (0 <? conf_PollInterval conf) && (conf_PollInterval conf <? 180 * Second)
  then Z.min (conf_PollInterval conf) (100 * Millisecond)
  else 100 * Millisecond.

Definition iterations : nat :=
  Datatypes.S (Datatypes.S (Z.to_nat (conf_Timeout conf / minWait))).

Definition WaitForStateContext (s : S) : M (option R * option error * S) :=
  fun w =>
    let deadline := now w + conf_Timeout conf in
    let result :=
      {| res_Result := None; res_State := ""; res_Error := None;
         res_Done := false |} in
    if deadline <=? now w + Z.max 0 (conf_Delay conf) then
      Returns (None, Some (timeoutError result), s)
        (at_time (Z.max (now w) deadline) w)
    else
      refreshLoop deadline iterations true 0 0 0 result s
        (sleep (conf_Delay conf) w).

End WaitForState.

(** ** The delete waiter *)

(** The refresh function: the value it returns as [interface{}] is either
    the untyped [nil] ([None]) or a [*networkfirewall.RuleGroup], which may
    itself be a [nil] pointer ([Some None]). *)
Definition statusRuleGroup (conn : NetworkFirewall) (arn : string)
  : unit -> M ((option (option RuleGroup) * string * option error) * unit) :=
  fun s =>
    found <- FindRuleGroupByARN conn arn ;;
    let '(output, err) := found in
    if NotFound err then ret ((None, "", None), s)
    else
      match err with
      | Some e => ret ((None, "", Some e), s)
      | None =>
          o <- deref output ;;
          response <- deref (described_RuleGroupResponse o) ;;
          ret ((Some (described_RuleGroup o),
                StringValue (resp_RuleGroupStatus response), None), s)
      end.

Definition deletedConf (conn : NetworkFirewall) (arn : string)
    (timeout : Duration) : StateChangeConf (option RuleGroup) unit :=
  {| conf_Delay := 0;
     conf_Pending := [ResourceStatusDeleting];
     conf_Refresh := statusRuleGroup conn arn;
     conf_Target := [];
     conf_Timeout := timeout;
     conf_MinTimeout := 0;
     conf_PollInterval := 0;
     conf_NotFoundChecks := 0;
     conf_ContinuousTargetOccurence := 0 |}.

Definition waitRuleGroupDeleted (conn : NetworkFirewall) (arn : string)
    (timeout : Duration) : M (option RuleGroup * option error) :=
  let stateConf := deletedConf conn arn timeout in
  waited <- WaitForStateContext stateConf tt ;;
  let '(outputRaw, err, _) := waited in
  match outputRaw with
  | Some output => ret (output, err)
  | None => ret (None, err)
  end.

(** ** Retrying the delete call *)

(** [retry.RetryError] with its two constructors. *)
Record RetryError : Type := { retry_Err : error; retry_Retryable : bool }.

Definition RetryableError (err : option error) : RetryError :=
  match err with
  | None =>
      {| retry_Err := errorString "empty retryable error received";
         retry_Retryable := false |}
  | Some e => {| retry_Err := e; retry_Retryable := true |}
  end.

Definition NonRetryableError (err : error) : RetryError :=
  {| retry_Err := err; retry_Retryable := false |}.

(** Modelled from the spec: [tfresource.Retry] (package
    internal/tfresource, not among the sources).  Transient errors are
    "retried with bounded exponential backoff at the call-issuing layer":
    the helper waits, with [WaitForStateContext], for [f] to stop
    answering with a retryable error; the error [f] returned last takes
    precedence over the error of the wait.  [T] is the state of the
    variables [f] captures. *)
Definition retryConf {T : Type} (timeout : Duration)
    (f : T -> M (option RetryError * T))
  : StateChangeConf Z (T * option error) :=
  {| conf_Delay := 0;
     conf_Pending := ["retryableerror"];
     conf_Refresh := fun '(t, _) =>
       tried <- f t ;;
       let '(rerr, t') := tried in
       match rerr with
       | None => ret ((Some 42, "success", None), (t', None))
       | Some re =>
           if retry_Retryable re then
             ret ((Some 42, "retryableerror", None), (t', Some (retry_Err re)))
           else
             ret ((None, "quit", Some (retry_Err re)), (t', Some (retry_Err re)))
       end;
     conf_Target := ["success"];
     conf_Timeout := timeout;
     conf_MinTimeout := 500 * Millisecond;
     conf_PollInterval := 0;
     conf_NotFoundChecks := 0;
     conf_ContinuousTargetOccurence := 0 |}.

Definition Retry {T : Type} (timeout : Duration)
    (f : T -> M (option RetryError * T)) (t : T) : M (option error * T) :=
  waited <- WaitForStateContext (retryConf timeout f) (t, None) ;;
  let '(_, waitErr, (t', resultErr)) := waited in
  match resultErr with
  | None => ret (waitErr, t')
  | Some _ => ret (resultErr, t')
  end.

(** Modelled from the spec: [tfresource.RetryWhen] (package
    internal/tfresource, not among the sources): [f] is retried while
    [retryable] says so, until the timeout; after a wait that timed out
    without an error of [f], [f] is called once more. *)
Definition RetryWhen {O : Type} (timeout : Duration)
    (f : M (option O * option error))
    (retryable : option error -> bool * option error)
  : M (option O * option error) :=
  retried <-
    Retry timeout
      (fun _ : option O =>
         reply <- f ;;
         let '(output, err) := reply in
         let '(again, err) := retryable err in
         if again then ret (Some (RetryableError err), output)
         else
           match err with
           | Some e => ret (Some (NonRetryableError e), output)
           | None => ret (None, output)
           end)
      None ;;
  let '(err, output) := retried in
  reply <- (if TimedOut err then f else ret (output, err)) ;;
  let '(output, err) := reply in
  match err with
  | Some _ => ret (None, err)
  | None => ret (output, None)
  end.

(** Modelled from the spec: [tfresource.RetryWhenAWSErrMessageContains]
    (package internal/tfresource, not among the sources): retry while the
    error is an AWS error with this code whose message contains this
    text. *)
Definition RetryWhenAWSErrMessageContains {O : Type} (timeout : Duration)
    (f : M (option O * option error)) (code message : string)
  : M (option O * option error) :=
  RetryWhen timeout f
    (fun err => if ErrMessageContains err code message then (true, err)
                else (false, err)).

(** ** Delete *)

Definition deleteTimeout : Duration := 10 * Minute.

Definition resourceRuleGroupDelete (conn : NetworkFirewall) (d : ResourceData)
  : M (ResourceData * Diagnostics) :=
  let timeout := deleteTimeout in
  deleted <-
    RetryWhenAWSErrMessageContains timeout
      (DeleteRuleGroupWithContext conn
         {| delete_RuleGroupArn := String_ (Id d) |})
      ErrCodeInvalidOperationException
      "Unable to delete the object because it is still in use" ;;
  let '(_, err) := deleted in
  if ErrCodeEquals err ErrCodeResourceNotFoundException then ret (d, [])
  else
    match err with
    | Some e =>
        ret (d, [Errorf "deleting NetworkFirewall Rule Group (%s): %s" [Id d] e])
    | None =>
        waited <- waitRuleGroupDeleted conn (Id d) timeout ;;
        let '(_, err) := waited in
        match err with
        | Some e =>
            ret (d, [Errorf
                       "waiting for NetworkFirewall Rule Group (%s) delete : %s"
                       [Id d] e])
        | None => ret (d, [])
        end
    end.

(** ** Vocabulary of the properties *)

(** The world after call number [length (trace w)] has been answered. *)
Definition after_call (conn : NetworkFirewall) (e : Event) (w : World) : World :=
  {| now := now w + Z.of_N (latency conn (length (trace w)));
     trace := trace w ++ [e] |}.

Definition describeInput (arn : string) : DescribeRuleGroupInput :=
  {| describe_RuleGroupArn := Some arn |}.

(** The describe call the finder issues in world [w], with its reply. *)
Definition describeCall (conn : NetworkFirewall) (arn : string) (w : World)
  : Event :=
  DescribeRuleGroupCall (describeInput arn)
    (DescribeRuleGroup conn (length (trace w)) (describeInput arn)).1
    (DescribeRuleGroup conn (length (trace w)) (describeInput arn)).2.

(** The read issues exactly one describe call, takes the time of that call
    and reports its reply: a rule group is a success whatever its status;
    resource-not-found is an error for a new resource and clears the
    identifier otherwise. *)
Definition reads_once (conn : NetworkFirewall) (d : ResourceData) (w : World)
  : Prop :=
  let input := describeInput (Id d) in
  let reply := DescribeRuleGroup conn (length (trace w)) input in
  exists r,
    resourceRuleGroupRead conn d w =
      Returns r (after_call conn (describeCall conn (Id d) w) w)
    /\ (forall o response rg,
          reply = (Some o, None) ->
          described_RuleGroupResponse o = Some response ->
          described_RuleGroup o = Some rg ->
          r = (setFromRemote o response d, []))
    /\ (forall e,
          reply.2 = Some e ->
          Code e = ErrCodeResourceNotFoundException ->
          r = if IsNewResource d then
                (d, [Errorf "reading NetworkFirewall Rule Group (%s): %s" [Id d]
                       (NotFoundError (Some (AwsError e))
                          (Some (ReqDescribe input)) 0)])
              else (SetId "" d, [])).

(** What the claim C9 says of the request: never both, and [Rules] alone
    as soon as the [rules] string has changed or is present. *)
Definition rules_take_precedence : Prop :=
  forall d : ResourceData,
    (update_Rules (updateRuleGroupInput d) = None
     \/ update_RuleGroup (updateRuleGroupInput d) = None)
    /\ (HasChange attr_rules d = true \/ (GetOk_string attr_rules d).2 = true ->
        update_Rules (updateRuleGroupInput d) <> None
        /\ update_RuleGroup (updateRuleGroupInput d) = None).

(** The status a describe call of the trace observed, when it returned a
    rule group response. *)
Definition describedStatus (ev : Event) : option string :=
  match ev with
  | DescribeRuleGroupCall _ (Some o) None =>
      match described_RuleGroupResponse o with
      | Some response => Some (StringValue (resp_RuleGroupStatus response))
      | None => None
      end
  | _ => None
  end.

(** The last call of the trace observed one of these statuses. *)
Definition converged_on (statuses : list string) (w : World) : Prop :=
  exists ev status,
    last (trace w) = Some ev
    /\ describedStatus ev = Some status
    /\ In status statuses.

(** What a poll with target statuses [successStates] after the create call
    would guarantee: the create reports success only once a describe has
    observed a target status. *)
Definition create_polls_until (successStates : list string) : Prop :=
  forall conn d w d' w',
    resourceRuleGroupCreate conn d w = Returns (d', []) w' ->
    converged_on successStates w'.

(** The same for the update. *)
Definition update_polls_until (successStates : list string) : Prop :=
  forall conn d w d' w',
    resourceRuleGroupUpdate conn d w = Returns (d', []) w' ->
    converged_on successStates w'.

(** Every describe of this rule group answers with status [DELETING]: no
    terminal status is ever observed. *)
Definition always_deleting (conn : NetworkFirewall) (arn : string) : Prop :=
  forall n,
    exists o response,
      DescribeRuleGroup conn n (describeInput arn) = (Some o, None)
      /\ described_RuleGroupResponse o = Some response
      /\ resp_RuleGroupStatus response = Some ResourceStatusDeleting.

(** The longest sleep between two refreshes of the waiter. *)
Definition maxPollInterval : Duration := 10 * Second.

(** What the claim C8 says of the delete waiter. *)
Definition bounded_wait_claim : Prop :=
  forall conn arn timeout w,
    0 < timeout ->
    always_deleting conn arn ->
    exists lastErr lastState w',
      waitRuleGroupDeleted conn arn timeout w =
        Returns (None, Some (TimeoutError lastErr lastState timeout [])) w'
      /\ now w' - now w <= timeout + maxPollInterval.

(** What the claim C4 says of a status [status]: a run in which every
    describe returns a rule group in that status polls until the timeout. *)
Definition transient_in_delete_wait (status : string) : Prop :=
  forall conn arn timeout w,
    0 < timeout ->
    (forall n,
        exists o response,
          DescribeRuleGroup conn n (describeInput arn) = (Some o, None)
          /\ described_RuleGroupResponse o = Some response
          /\ resp_RuleGroupStatus response = Some status) ->
    exists lastErr lastState w',
      waitRuleGroupDeleted conn arn timeout w =
        Returns (None, Some (TimeoutError lastErr lastState timeout [])) w'
      /\ now w + timeout <= now w'.

Definition deleteInput (arn : string) : DeleteRuleGroupInput :=
  {| delete_RuleGroupArn := Some arn |}.

(** The rule group is already absent: the service answers every call that
    names it, delete or describe, with [ResourceNotFoundException]. *)
Definition absent (conn : NetworkFirewall) (arn : string) : Prop :=
  forall n,
    (exists output a,
        DeleteRuleGroup conn n (deleteInput arn) = (output, Some a)
        /\ Code a = ErrCodeResourceNotFoundException)
    /\ (exists output a,
        DescribeRuleGroup conn n (describeInput arn) = (output, Some a)
        /\ Code a = ErrCodeResourceNotFoundException).

(** The computation returns: it neither panics nor is cut off. *)
Definition returns {A : Type} (o : Outcome A) : Prop :=
  exists a w, o = Returns a w.

(** The computation returns, and no later than [t] on the clock. *)
Definition returns_by {A : Type} (t : Z) (o : Outcome A) : Prop :=
  exists a w, o = Returns a w /\ now w <= t.

End RuleGroupResource.

Arguments Returns {_ A} a w.
Arguments Panics {_ A} w.
Arguments Unfinished {_ A}.

Arguments Build_Result {R} _ _ _ _.
Arguments res_Result {R} _.
Arguments res_State {R} _.
Arguments res_Error {R} _.
Arguments res_Done {R} _.
Arguments Build_StateChangeConf {_ R S} _ _ _ _ _ _ _ _ _.
Arguments conf_Delay {_ R S} _.
Arguments conf_Pending {_ R S} _.
Arguments conf_Refresh {_ R S} _.
Arguments conf_Target {_ R S} _.
Arguments conf_Timeout {_ R S} _.
Arguments conf_MinTimeout {_ R S} _.
Arguments conf_PollInterval {_ R S} _.
Arguments conf_NotFoundChecks {_ R S} _.
Arguments conf_ContinuousTargetOccurence {_ R S} _.


(** * The nested blocks of [rule_group], field by field

    The [expand...] functions read the configuration, which the plugin SDK
    hands over as values of type [interface{}]; the [flatten...] functions
    build such values from the SDK structures.

    Conventions.
    - [value] is the part of [interface{}] that occurs here.  A slice
      [[]interface{}] is used by the code only through [len], indexing
      and [range], so that the [nil] slice and the empty one are the same
      [VList []].  A [*schema.Set] is carried as the list its [List]
      method returns; [Len] is the length of that list.
    - A slice of an SDK structure is an [option (list _)]: [None] is the
      [nil] slice, which the SDK leaves out of a request, and [Some []]
      is the empty one.  Its elements are pointers.
    - [int] is taken to be 64 bits wide, as on the platforms the provider
      is built for: the conversions between [int] and [int64] are the
      identity.
    - A function that can dereference [nil], or whose type assertion has
      no second result, returns an [option]: [None] is the run-time
      panic. *)

#[local] Set Warnings "-register-all".

Inductive value : Type :=
| VNil
| VString (s : string)
| VInt (n : Z)
| VStrings (l : list string)
| VList (l : list value)
| VSet (l : list value)
| VMap (m : gmap string value).

(** [aws.Int64Value]. *)
Definition Int64Value (p : option Z) : Z := default 0 p.

(** A field set from a key that holds a non-empty string:
    [x = aws.String(v)] under the test [ok && v != empty]. *)
Definition stringField (tfMap : gmap string value) (k : string) : option string :=
  match tfMap !! k with
  | Some (VString v) => if String.eqb v "" then None else Some v
  | _ => None
  end.

(** [if v, ok := tfMap[k].(int); ok { x = aws.Int64(int64(v)) }] *)
Definition intField (tfMap : gmap string value) (k : string) : option Z :=
  match tfMap !! k with
  | Some (VInt v) => Some v
  | _ => None
  end.

(** [len(l) == 0 || l[0] == nil] *)
Definition emptyOrNil (l : list value) : bool :=
  match l with
  | [] => true
  | VNil :: _ => true
  | _ => false
  end.

(** The elements of [l] that are a [map[string]interface{}]: the loops
    [continue] on the others. *)
Definition maps (l : list value) : list (gmap string value) :=
  omap (fun tfMapRaw => match tfMapRaw with VMap tfMap => Some tfMap | _ => None end) l.

(** ** The header of a stateful rule *)

Record Header : Type := {
  Destination : option string;
  DestinationPort : option string;
  Direction : option string;
  Protocol : option string;
  Source : option string;
  SourcePort : option string
}.

Definition expandStatefulRuleHeader (l : list value) : option Header :=
  if emptyOrNil l then None
  else
    match l with
    | VMap tfMap :: _ =>
        Some {| Destination := stringField tfMap "destination";
                DestinationPort := stringField tfMap "destination_port";
                Direction := stringField tfMap "direction";
                Protocol := stringField tfMap "protocol";
                Source := stringField tfMap "source";
                SourcePort := stringField tfMap "source_port" |}
    | _ => None
    end.

Definition flattenHeader (h : option Header) : list value :=
  match h with
  | None => []
  | Some h =>
      [VMap {[ "destination" := VString (StringValue (Destination h));
               "destination_port" := VString (StringValue (DestinationPort h));
               "direction" := VString (StringValue (Direction h));
               "protocol" := VString (StringValue (Protocol h));
               "source" := VString (StringValue (Source h));
               "source_port" := VString (StringValue (SourcePort h)) ]}]
  end.

(** ** Addresses and port ranges of a stateless rule *)

Record Address : Type := { AddressDefinition : option string }.

Definition expandAddresses (l : list value) : option (list (option Address)) :=
  if emptyOrNil l then None
  else
    Some ((fun tfMap =>
             Some {| AddressDefinition := stringField tfMap "address_definition" |})
          <$> maps l).

Definition flattenAddresses (d : option (list (option Address)))
  : option (list value) :=
  match d with
  | None => Some []
  | Some d =>
      mapM (fun addr : option Address =>
              addr ← addr;
              Some (VMap {[ "address_definition" :=
                              VString (StringValue (AddressDefinition addr)) ]}))
           d
  end.

Record PortRange : Type := { FromPort : option Z; ToPort : option Z }.

Definition expandPortRanges (l : list value) : option (list (option PortRange)) :=
  if emptyOrNil l then None
  else
    Some ((fun tfMap =>
             Some {| FromPort := intField tfMap "from_port";
                     ToPort := intField tfMap "to_port" |})
          <$> maps l).

Definition flattenPortRanges (pr : option (list (option PortRange)))
  : option (list value) :=
  match pr with
  | None => Some []
  | Some pr =>
      mapM (fun r : option PortRange =>
              r ← r;
              Some (VMap {[ "from_port" := VInt (Int64Value (FromPort r));
                            "to_port" := VInt (Int64Value (ToPort r)) ]}))
           pr
  end.

(** ** References to IP sets *)

Record IPSetReference : Type := { ReferenceArn : option string }.

(** One turn of the loop of [expandIPSetReferences] on the map [m]. *)
Definition expandIPSetReferencesStep
    (m : gmap string (option IPSetReference)) (tfMapRaw : value)
  : gmap string (option IPSetReference) :=
  match tfMapRaw with
  | VMap tfMap =>
      match stringField tfMap "key" with
      | Some key =>
          match tfMap !! "ip_set_reference" with
          | Some (VList (VMap tfMap :: _)) =>
              match stringField tfMap "reference_arn" with
              | Some tfSet => <[key := Some {| ReferenceArn := Some tfSet |}]> m
              | None => m
              end
          | _ => m
          end
      | None => m
      end
  | _ => m
  end.

Definition expandIPSetReferences (l : list value)
  : option (gmap string (option IPSetReference)) :=
  if emptyOrNil l then None
  else Some (foldl expandIPSetReferencesStep ∅ l).

Definition flattenIPSetReference (i : option IPSetReference) : list value :=
  match i with
  | None => []
  | Some i => [VMap {[ "reference_arn" := VString (StringValue (ReferenceArn i)) ]}]
  end.

(** Go does not specify the order in which [range] visits a map:
    [order] is one visit of the entries of [m], each of them once. *)
Definition rangeOver {V : Type} (m : gmap string V) (order : list (string * V))
  : Prop :=
  order ≡ₚ map_to_list m.

(** [flattenIPSetReferences], its [range] visiting the entries in
    [order]. *)
Definition flattenIPSetReferences (m : option (gmap string (option IPSetReference)))
    (order : list (string * option IPSetReference)) : list value :=
  match m with
  | None => []
  | Some _ =>
      (fun '(k, v) =>
         VMap {[ "key" := VString k;
                 "ip_set_reference" := VList (flattenIPSetReference v) ]})
      <$> order
  end.

Record ReferenceSets : Type := {
  IPSetReferences : option (gmap string (option IPSetReference))
}.

Definition flattenReferenceSets (rv : option ReferenceSets)
    (order : list (string * option IPSetReference)) : list value :=
  match rv with
  | None => []
  | Some rv =>
      [VMap {[ "ip_set_references" :=
                 VList (flattenIPSetReferences (IPSetReferences rv) order) ]}]
  end.

(** ** Stateful rules *)

Record RuleOption : Type := {
  Keyword : option string;
  Settings : option (list (option string))
}.

Record StatefulRule : Type := {
  Action : option string;
  rule_Header : option Header;
  RuleOptions : option (list (option RuleOption))
}.

Record StatefulRuleOptions : Type := { RuleOrder : option string }.

(** [aws.StringValueSlice]: a [nil] element becomes the empty string. *)
Definition StringValueSlice (src : option (list (option string))) : list string :=
  StringValue <$> default [] src.

Definition flattenRuleOptions (o : option (list (option RuleOption)))
  : option (list value) :=
  match o with
  | None => Some []
  | Some o =>
      mapM (fun option : option RuleOption =>
              option ← option;
              Some (VMap {[ "keyword" := VString (StringValue (Keyword option));
                            "settings" := VStrings (StringValueSlice (Settings option)) ]}))
           o
  end.

Definition flattenStatefulRules (sr : option (list (option StatefulRule)))
  : option (list value) :=
  match sr with
  | None => Some []
  | Some sr =>
      mapM (fun s : option StatefulRule =>
              s ← s;
              options ← flattenRuleOptions (RuleOptions s);
              Some (VMap {[ "action" := VString (StringValue (Action s));
                            "header" := VList (flattenHeader (rule_Header s));
                            "rule_option" := VList options ]}))
           sr
  end.

Definition flattenStatefulRulesOptions (sro : option StatefulRuleOptions)
  : list value :=
  match sro with
  | None => []
  | Some sro => [VMap {[ "rule_order" := VString (StringValue (RuleOrder sro)) ]}]
  end.

(** The functions of package [flex] are not part of this development:
    what is said about their callers holds for every [ExpandStringSet]. *)
Section Flex.

Variable ExpandStringSet : list value -> option (list (option string)).

(** A field set from a key that holds a non-empty set:
    [x = flex.ExpandStringSet(v)] under the test [ok && v.Len() > 0]. *)
Definition stringSetField (tfMap : gmap string value) (k : string)
  : option (list (option string)) :=
  match tfMap !! k with
  | Some (VSet ((_ :: _) as v)) => ExpandStringSet v
  | _ => None
  end.

(** The body of the loop of [expandStatefulRuleOptions]: the assertion
    [tfMap["keyword"].(string)] has no second result. *)
Definition expandStatefulRuleOption (tfMap : gmap string value)
  : option (option RuleOption) :=
  match tfMap !! "keyword" with
  | Some (VString keyword) =>
      Some (Some {| Keyword := Some keyword;
                    Settings := stringSetField tfMap "settings" |})
  | _ => None
  end.

Definition expandStatefulRuleOptions (l : list value)
  : option (option (list (option RuleOption))) :=
  if emptyOrNil l then Some None
  else Some <$> mapM expandStatefulRuleOption (maps l).

(** [rule.RuleOptions = expandStatefulRuleOptions(v.List())], when the
    key [rule_option] holds a non-empty set [v]. *)
Definition ruleOptionsField (tfMap : gmap string value)
  : option (option (list (option RuleOption))) :=
  match tfMap !! "rule_option" with
  | Some (VSet ((_ :: _) as v)) => expandStatefulRuleOptions v
  | _ => Some None
  end.

(** [if v, ok := tfMap["header"].([]interface{});
     ok && len(v) > 0 && v[0] != nil
     { rule.Header = expandStatefulRuleHeader(v) }] *)
Definition headerField (tfMap : gmap string value) : option Header :=
  match tfMap !! "header" with
  | Some (VList v) => if emptyOrNil v then None else expandStatefulRuleHeader v
  | _ => None
  end.

Definition expandStatefulRules (l : list value)
  : option (option (list (option StatefulRule))) :=
  if emptyOrNil l then Some None
  else
    Some <$>
      mapM (fun tfMap =>
              options ← ruleOptionsField tfMap;
              Some (Some {| Action := stringField tfMap "action";
                            rule_Header := headerField tfMap;
                            RuleOptions := options |}))
           (maps l).

End Flex.

(** ** Vocabulary of the properties *)

(** What a string field reads back as after a flatten and an expand: a
    pointer to the empty string comes back as [nil]. *)
Definition unlessEmpty (p : option string) : option string :=
  if String.eqb (StringValue p) "" then None else p.

Definition readBackHeader (h : Header) : Header :=
  {| Destination := unlessEmpty (Destination h);
     DestinationPort := unlessEmpty (DestinationPort h);
     Direction := unlessEmpty (Direction h);
     Protocol := unlessEmpty (Protocol h);
     Source := unlessEmpty (Source h);
     SourcePort := unlessEmpty (SourcePort h) |}.

Definition readBackAddress (a : Address) : Address :=
  {| AddressDefinition := unlessEmpty (AddressDefinition a) |}.

(** A port that is not set comes back as port 0. *)
Definition readBackPortRange (r : PortRange) : PortRange :=
  {| FromPort := Some (Int64Value (FromPort r));
     ToPort := Some (Int64Value (ToPort r)) |}.

(** The references that [expandIPSetReferences] sends: those with a key
    and a reference ARN that are not empty. *)
Definition sentReference (k : string) (v : option IPSetReference) : bool :=
  negb (String.eqb k "")
  && match v with
     | Some i => negb (String.eqb (StringValue (ReferenceArn i)) "")
     | None => false
     end.

(** What one turn of the loop of [expandIPSetReferences] does with an
    entry of the map that was flattened. *)
Definition insertSent (acc : gmap string (option IPSetReference))
    (kv : string * option IPSetReference) : gmap string (option IPSetReference) :=
  if sentReference kv.1 kv.2 then <[kv.1 := kv.2]> acc else acc.
(** * Concrete inputs

    The inputs at which the properties below are exercised. *)

(** The nested blocks as plain strings. *)
#[export] Instance exampleBlocks : NestedBlocks := {|
  tfMap := string;
  tfMap_eq_dec := _;
  RuleGroup := string;
  expandRuleGroupFields := fun m => m;
  flattenRuleGroupFields := fun r => r;
  EncryptionBlock := string;
  EncryptionBlock_eq_dec := _;
  EncryptionConfiguration := string;
  expandEncryptionConfiguration := fun l => head l;
  flattenEncryptionConfiguration := fun c => option_list c
|}.

Definition exampleArn : string :=
  "arn:aws:network-firewall:us-east-1:123456789012:stateful-rulegroup/example".

Definition exampleResponse (status : string) : RuleGroupResponse :=
  {| resp_Capacity := Some 100;
     resp_Description := None;
     resp_EncryptionConfiguration := None;
     resp_RuleGroupArn := Some exampleArn;
     resp_RuleGroupName := Some "example";
     resp_RuleGroupStatus := Some status;
     resp_Tags := [];
     resp_Type := Some "STATEFUL" |}.

(** A describe reply with the rule group in the given status. *)
Definition exampleOutput (status : string) : DescribeRuleGroupOutput :=
  {| described_RuleGroup := Some "pass tcp any any -> any any (sid:1;)";
     described_RuleGroupResponse := Some (exampleResponse status);
     described_UpdateToken := Some "token-1" |}.

Definition inStatus (status : string)
  : option DescribeRuleGroupOutput * option awserr :=
  (Some (exampleOutput status), None).

Definition notFound : awserr :=
  {| Code := "ResourceNotFoundException";
     Message := "The rule group does not exist" |}.

(** A describe reply and a delete reply for a rule group that is gone; the
    SDK returns its empty output structure next to the error. *)
Definition describeGone : option DescribeRuleGroupOutput * option awserr :=
  (Some {| described_RuleGroup := None;
           described_RuleGroupResponse := None;
           described_UpdateToken := None |},
   Some notFound).

Definition deleteGone : option DeleteRuleGroupOutput * option awserr :=
  (Some {| deleted_RuleGroupResponse := None |}, Some notFound).

Definition deleteAccepted : option DeleteRuleGroupOutput * option awserr :=
  (Some {| deleted_RuleGroupResponse := Some (exampleResponse "DELETING") |},
   None).

(** A service that accepts creates and updates and answers describes and
    deletes as given. *)
Definition exampleConn
    (describe : nat -> option DescribeRuleGroupOutput * option awserr)
    (delete : nat -> option DeleteRuleGroupOutput * option awserr)
    (lat : nat -> N) : NetworkFirewall :=
  {| CreateRuleGroup := fun _ _ =>
       (Some {| created_RuleGroupResponse := Some (exampleResponse "ACTIVE");
                created_UpdateToken := Some "token-1" |}, None);
     DescribeRuleGroup := fun n _ => describe n;
     UpdateRuleGroup := fun _ _ =>
       (Some {| updated_RuleGroupResponse := Some (exampleResponse "ACTIVE");
                updated_UpdateToken := Some "token-2" |}, None);
     DeleteRuleGroup := fun n _ => delete n;
     latency := lat |}.

(** The rule group is gone; calls take no time. *)
Definition goneConn : NetworkFirewall :=
  exampleConn (fun _ => describeGone) (fun _ => deleteGone) (fun _ => 0%N).

(** The service accepts the delete and reports the rule group gone
    afterwards; calls take no time. *)
Definition acceptingConn : NetworkFirewall :=
  exampleConn (fun _ => describeGone) (fun _ => deleteAccepted) (fun _ => 0%N).

(** Every describe answers with an empty output and no error. *)
Definition blankConn : NetworkFirewall :=
  exampleConn
    (fun _ => (Some {| described_RuleGroup := None;
                       described_RuleGroupResponse := None;
                       described_UpdateToken := None |}, None))
    (fun _ => deleteAccepted) (fun _ => 0%N).

(** The first two describes find the rule group [DELETING], the later
    ones find it gone. *)
Definition vanishingConn : NetworkFirewall :=
  exampleConn
    (fun n => if (n <? 2)%nat then inStatus "DELETING" else describeGone)
    (fun _ => deleteAccepted) (fun _ => 0%N).

(** Every describe finds the rule group in the given status; each call
    takes [lat] nanoseconds. *)
Definition statusConn (status : string) (lat : N) : NetworkFirewall :=
  exampleConn (fun _ => inStatus status) (fun _ => deleteAccepted) (fun _ => lat).

(** The first describe after the first call finds the rule group
    [DELETING], the later ones find it [ACTIVE]. *)
Definition settlingConn : NetworkFirewall :=
  exampleConn
    (fun n => if (n <=? 1)%nat then inStatus "DELETING" else inStatus "ACTIVE")
    (fun _ => deleteAccepted) (fun _ => 0%N).

Definition startWorld : World := {| now := 0; trace := [] |}.

Definition noAttributes : Attributes :=
  {| attr_arn := ""; attr_capacity := 0; attr_description := "";
     attr_encryption_configuration := []; attr_name := "";
     attr_rule_group := []; attr_rules := ""; attr_type := "";
     attr_update_token := "" |}.

Definition exampleAttributes (description rules : string)
    (rule_group : list (option string)) : Attributes :=
  {| attr_arn := exampleArn; attr_capacity := 100;
     attr_description := description;
     attr_encryption_configuration := []; attr_name := "example";
     attr_rule_group := rule_group; attr_rules := rules;
     attr_type := "STATEFUL"; attr_update_token := "token-1" |}.

(** The resource data of a create: no identifier yet, marked new. *)
Definition newData : ResourceData :=
  {| Id := ""; IsNewResource := true; prior := noAttributes;
     planned := exampleAttributes "" "pass tcp any any -> any any (sid:1;)" [];
     TagsIn := []; TagsOut := [] |}.

(** The resource data of an update that changes the description only. *)
Definition existingData : ResourceData :=
  {| Id := exampleArn; IsNewResource := false;
     prior := exampleAttributes "" "pass tcp any any -> any any (sid:1;)" [];
     planned :=
       exampleAttributes "edge rules" "pass tcp any any -> any any (sid:1;)" [];
     TagsIn := []; TagsOut := [] |}.

(** The resource data of an update that keeps the [rules] string and
    changes the [rule_group] block. *)
Definition blockChangedData : ResourceData :=
  {| Id := exampleArn; IsNewResource := false;
     prior :=
       exampleAttributes "" "pass tcp any any -> any any (sid:1;)"
         [Some "rule_variables: HOME_NET = 10.0.0.0/16"];
     planned :=
       exampleAttributes "" "pass tcp any any -> any any (sid:1;)"
         [Some "rule_variables: HOME_NET = 10.1.0.0/16"];
     TagsIn := []; TagsOut := [] |}.

(** The resource data of an update that changes the [rules] string. *)
Definition rulesChangedData : ResourceData :=
  {| Id := exampleArn; IsNewResource := false;
     prior :=
       exampleAttributes "" "pass tcp any any -> any any (sid:1;)"
         [Some "rule_variables: HOME_NET = 10.0.0.0/16"];
     planned :=
       exampleAttributes "" "drop tcp any any -> any any (sid:2;)"
         [Some "rule_variables: HOME_NET = 10.0.0.0/16"];
     TagsIn := []; TagsOut := [] |}.

(** The clock at which an outcome is reached. *)
Definition finished_at {A : Type} (o : Outcome A) : option Z :=
  match o with
  | Returns _ w => Some (now w)
  | Panics w => Some (now w)
  | Unfinished => None
  end.


(** A describe reply that carries the rule group response without the
    rule group. *)
Definition headlessOutput : DescribeRuleGroupOutput :=
  {| described_RuleGroup := None;
     described_RuleGroupResponse := Some (exampleResponse "ACTIVE");
     described_UpdateToken := Some "token-1" |}.

Definition headlessConn : NetworkFirewall :=
  exampleConn (fun _ => (Some headlessOutput, None)) (fun _ => deleteAccepted)
    (fun _ => 0%N).

Definition throttled : awserr :=
  {| Code := "ThrottlingException"; Message := "Rate exceeded" |}.

(** The service rejects every delete call; calls take no time. *)
Definition throttledConn : NetworkFirewall :=
  exampleConn (fun _ => inStatus "ACTIVE")
    (fun _ => (Some {| deleted_RuleGroupResponse := None |}, Some throttled))
    (fun _ => 0%N).

Definition internalError : awserr :=
  {| Code := "InternalServerError"; Message := "Try again later" |}.

(** The service accepts the delete call and fails every describe. *)
Definition brokenConn : NetworkFirewall :=
  exampleConn (fun _ => (None, Some internalError)) (fun _ => deleteAccepted)
    (fun _ => 0%N).

Definition exampleAddresses : list (option Address) :=
  [Some {| AddressDefinition := Some "10.0.0.0/16" |};
   Some {| AddressDefinition := Some "" |};
   Some {| AddressDefinition := None |}].

Definition examplePortRanges : list (option PortRange) :=
  [Some {| FromPort := Some 443; ToPort := Some 443 |};
   Some {| FromPort := Some 1024; ToPort := None |}].

Definition exampleReferences : gmap string (option IPSetReference) :=
  {[ "HOME" := Some {| ReferenceArn :=
                         Some "arn:aws:ec2:us-east-1:123456789012:prefix-list/pl-1" |};
     "AWAY" := Some {| ReferenceArn := None |};
     "" := Some {| ReferenceArn :=
                     Some "arn:aws:ec2:us-east-1:123456789012:prefix-list/pl-2" |} ]}.
(** * Properties *)

Section Properties.

Context `{NestedBlocks}.

(** Case analysis on the condition of the first conditional of the goal. *)
Ltac break_if :=
  match goal with
  | |- context [if ?b then _ else _] => destruct b eqn:?
  end.

(** ** The finder *)

Ltac unfold_find :=
  unfold FindRuleGroupByARN, bind, DescribeRuleGroupWithContext, call,
    describeCall, after_call, String_;
  repeat match goal with
         | |- context [{| describe_RuleGroupArn := Some ?a |}] =>
             change {| describe_RuleGroupArn := Some a |} with (describeInput a)
         end.

(** The finder issues one describe call, whatever the reply. *)
Lemma FindRuleGroupByARN_one_call conn arn w :
  exists r,
    FindRuleGroupByARN conn arn w =
    Returns r (after_call conn (describeCall conn arn w) w).
Proof.
  unfold_find.
  destruct (DescribeRuleGroup conn (length (trace w)) (describeInput arn))
    as [output [e|]]; simpl.
  - break_if; eexists; reflexivity.
  - destruct output as [o|]; [destruct (described_RuleGroupResponse o)|];
      eexists; reflexivity.
Qed.

Lemma FindRuleGroupByARN_not_found conn arn w output e :
  DescribeRuleGroup conn (length (trace w)) (describeInput arn) = (output, Some e) ->
  String.eqb (Code e) ErrCodeResourceNotFoundException = true ->
  FindRuleGroupByARN conn arn w =
  Returns (None, Some (NotFoundError (Some (AwsError e))
                         (Some (ReqDescribe (describeInput arn))) 0))
    (after_call conn (DescribeRuleGroupCall (describeInput arn) output (Some e)) w).
Proof.
  intros Hreply Hcode. unfold_find. rewrite Hreply. simpl. rewrite Hcode.
  reflexivity.
Qed.

Lemma FindRuleGroupByARN_failure conn arn w output e :
  DescribeRuleGroup conn (length (trace w)) (describeInput arn) = (output, Some e) ->
  String.eqb (Code e) ErrCodeResourceNotFoundException = false ->
  FindRuleGroupByARN conn arn w =
  Returns (None, Some (AwsError e))
    (after_call conn (DescribeRuleGroupCall (describeInput arn) output (Some e)) w).
Proof.
  intros Hreply Hcode. unfold_find. rewrite Hreply. simpl. rewrite Hcode.
  reflexivity.
Qed.

Lemma FindRuleGroupByARN_found conn arn w o response :
  DescribeRuleGroup conn (length (trace w)) (describeInput arn) = (Some o, None) ->
  described_RuleGroupResponse o = Some response ->
  FindRuleGroupByARN conn arn w =
  Returns (Some o, None)
    (after_call conn (DescribeRuleGroupCall (describeInput arn) (Some o) None) w).
Proof.
  intros Hreply Hresp. unfold_find. rewrite Hreply. simpl. rewrite Hresp.
  reflexivity.
Qed.

Lemma FindRuleGroupByARN_empty conn arn w output :
  DescribeRuleGroup conn (length (trace w)) (describeInput arn) = (output, None) ->
  output ≫= described_RuleGroupResponse = None ->
  FindRuleGroupByARN conn arn w =
  Returns (None, Some (NewEmptyResultError (ReqDescribe (describeInput arn))))
    (after_call conn (DescribeRuleGroupCall (describeInput arn) output None) w).
Proof.
  intros Hreply Hnil. unfold_find. rewrite Hreply. simpl.
  destruct output as [o|]; [|reflexivity].
  simpl in Hnil. rewrite Hnil. reflexivity.
Qed.

Lemma FindRuleGroupByARN_success_inv conn arn w output w' :
  FindRuleGroupByARN conn arn w = Returns (output, None) w' ->
  exists o response,
    output = Some o /\ described_RuleGroupResponse o = Some response.
Proof.
  unfold_find.
  destruct (DescribeRuleGroup conn (length (trace w)) (describeInput arn))
    as [out [e|]]; simpl.
  - break_if; discriminate.
  - destruct out as [o|]; [|discriminate].
    destruct (described_RuleGroupResponse o) as [response|] eqn:Hresp;
      [|discriminate].
    unfold ret. intros [= <- <-]. eauto.
Qed.

(** A not-found error of the finder is never the [nil] error. *)
Lemma NotFound_is_error err : NotFound err = true -> exists e, err = Some e.
Proof. destruct err as [e|]; [eauto|discriminate]. Qed.

(** ** Read *)

(** The outcome of the read, from the outcome of the finder. *)
Lemma resourceRuleGroupRead_found conn d w o response rg w1 :
  FindRuleGroupByARN conn (Id d) w = Returns (Some o, None) w1 ->
  described_RuleGroupResponse o = Some response ->
  described_RuleGroup o = Some rg ->
  resourceRuleGroupRead conn d w = Returns (setFromRemote o response d, []) w1.
Proof.
  intros Hf Hresp Hrg. unfold resourceRuleGroupRead, bind. rewrite Hf. simpl.
  rewrite Hrg. unfold ret. rewrite andb_false_r. simpl. rewrite Hresp.
  reflexivity.
Qed.

(** A reply without the rule group itself is an empty result, which counts
    as not found. *)
Lemma resourceRuleGroupRead_empty conn d w o w1 :
  FindRuleGroupByARN conn (Id d) w = Returns (Some o, None) w1 ->
  described_RuleGroup o = None ->
  resourceRuleGroupRead conn d w =
  if IsNewResource d then
    Returns (d, [Errorf "reading NetworkFirewall Rule Group (%s): %s" [Id d]
                   (NewEmptyResultError (ReqId (Id d)))]) w1
  else Returns (SetId "" d, []) w1.
Proof.
  intros Hf Hrg. unfold resourceRuleGroupRead, bind. rewrite Hf. simpl.
  rewrite Hrg. unfold ret. destruct (IsNewResource d); reflexivity.
Qed.

Lemma resourceRuleGroupRead_error conn d w output e w1 :
  FindRuleGroupByARN conn (Id d) w = Returns (output, Some e) w1 ->
  resourceRuleGroupRead conn d w =
  if negb (IsNewResource d) && NotFound (Some e) then Returns (SetId "" d, []) w1
  else Returns (d, [Errorf "reading NetworkFirewall Rule Group (%s): %s"
                      [Id d] e]) w1.
Proof.
  intros Hf. unfold resourceRuleGroupRead, bind. rewrite Hf. unfold ret.
  destruct (negb (IsNewResource d) && NotFound (Some e)); reflexivity.
Qed.

(** The read returns, in the world the finder leaves. *)
Lemma resourceRuleGroupRead_returns conn d w :
  exists r,
    resourceRuleGroupRead conn d w =
    Returns r (after_call conn (describeCall conn (Id d) w) w).
Proof.
  destruct (FindRuleGroupByARN_one_call conn (Id d) w) as [[output err] Hf].
  destruct err as [e|].
  - rewrite (resourceRuleGroupRead_error _ _ _ _ _ _ Hf). break_if; eauto.
  - destruct (FindRuleGroupByARN_success_inv _ _ _ _ _ Hf)
      as (o & response & -> & Hresp).
    destruct (described_RuleGroup o) as [rg|] eqn:Hrg.
    + rewrite (resourceRuleGroupRead_found _ _ _ _ _ _ _ Hf Hresp Hrg). eauto.
    + rewrite (resourceRuleGroupRead_empty _ _ _ _ _ Hf Hrg). break_if; eauto.
Qed.

Lemma resourceRuleGroupRead_no_panic conn d w w' :
  resourceRuleGroupRead conn d w <> Panics w'.
Proof.
  destruct (resourceRuleGroupRead_returns conn d w) as [r ->]. discriminate.
Qed.

(** The status function returns, in the world the finder leaves. *)
Lemma statusRuleGroup_returns conn arn w :
  exists r,
    statusRuleGroup conn arn tt w =
    Returns (r, tt) (after_call conn (describeCall conn arn w) w).
Proof.
  destruct (FindRuleGroupByARN_one_call conn arn w) as [[output err] Hf].
  unfold statusRuleGroup, bind. rewrite Hf. destruct err as [e|].
  - unfold ret. break_if; eauto.
  - destruct (FindRuleGroupByARN_success_inv _ _ _ _ _ Hf)
      as (o & response & -> & Hresp).
    simpl. rewrite Hresp. simpl. unfold ret. eauto.
Qed.

Lemma resourceRuleGroupRead_reads_once conn d w : reads_once conn d w.
Proof.
  unfold reads_once.
  destruct (resourceRuleGroupRead_returns conn d w) as [r Hread].
  exists r. split; [exact Hread|]. split.
  - intros o response rg Hreply Hresp Hrg.
    pose proof (FindRuleGroupByARN_found conn (Id d) w o response Hreply Hresp)
      as Hf.
    rewrite (resourceRuleGroupRead_found _ _ _ _ _ _ _ Hf Hresp Hrg) in Hread.
    congruence.
  - intros e He Hcode.
    destruct (DescribeRuleGroup conn (length (trace w)) (describeInput (Id d)))
      as [output err] eqn:Hreply.
    simpl in He. subst err.
    assert (Hc : String.eqb (Code e) ErrCodeResourceNotFoundException = true)
      by (apply String.eqb_eq; exact Hcode).
    pose proof (FindRuleGroupByARN_not_found conn (Id d) w output e Hreply Hc)
      as Hf.
    rewrite (resourceRuleGroupRead_error _ _ _ _ _ _ Hf) in Hread.
    simpl in Hread. rewrite andb_true_r in Hread.
    destruct (IsNewResource d); simpl in Hread; congruence.
Qed.

(** C5. The finder issues a single describe call; a failure whose code is
    [ResourceNotFoundException] comes back as a [retry.NotFoundError]
    (recognised by [tfresource.NotFound]) that wraps it, every other
    failure comes back unchanged and is not recognised as not found. *)
Theorem FindRuleGroupByARN_classifies_failures conn arn w output e :
  DescribeRuleGroup conn (length (trace w)) (describeInput arn) = (output, Some e) ->
  let w' := after_call conn
              (DescribeRuleGroupCall (describeInput arn) output (Some e)) w in
  if String.eqb (Code e) ErrCodeResourceNotFoundException then
    FindRuleGroupByARN conn arn w =
      Returns (None, Some (NotFoundError (Some (AwsError e))
                             (Some (ReqDescribe (describeInput arn))) 0)) w'
    /\ NotFound (Some (NotFoundError (Some (AwsError e))
                         (Some (ReqDescribe (describeInput arn))) 0)) = true
  else
    FindRuleGroupByARN conn arn w = Returns (None, Some (AwsError e)) w'
    /\ NotFound (Some (AwsError e)) = false.
Proof.
  intros Hreply w'. subst w'.
  destruct (String.eqb (Code e) ErrCodeResourceNotFoundException) eqn:Hcode.
  - split; [|reflexivity]. apply FindRuleGroupByARN_not_found; assumption.
  - split; [|reflexivity]. apply FindRuleGroupByARN_failure; assumption.
Qed.

(** C10. When the finder returns without an error, the output and its
    [RuleGroupResponse] are not [nil]: a reply without error whose output
    or whose [RuleGroupResponse] is [nil] becomes an empty-result error.
    So neither the read handler nor the status function, which dereference
    them, can panic. *)
Theorem FindRuleGroupByARN_success_not_nil conn arn w :
  (forall output w',
      FindRuleGroupByARN conn arn w = Returns (output, None) w' ->
      exists o response,
        output = Some o /\ described_RuleGroupResponse o = Some response)
  /\ (forall output,
        DescribeRuleGroup conn (length (trace w)) (describeInput arn) =
          (output, None) ->
        output ≫= described_RuleGroupResponse = None ->
        FindRuleGroupByARN conn arn w =
        Returns (None,
                 Some (NewEmptyResultError (ReqDescribe (describeInput arn))))
          (after_call conn
             (DescribeRuleGroupCall (describeInput arn) output None) w))
  /\ (forall d w', resourceRuleGroupRead conn d w <> Panics w')
  /\ (forall w', statusRuleGroup conn arn tt w <> Panics w').
Proof.
  split; [|split; [|split]].
  - intros output w'. apply FindRuleGroupByARN_success_inv.
  - intros output. apply FindRuleGroupByARN_empty.
  - intros d w'. apply resourceRuleGroupRead_no_panic.
  - intros w'. destruct (statusRuleGroup_returns conn arn w) as [r ->].
    discriminate.
Qed.

(** C7. When the finder answers not found, the read of a resource that is
    not new clears the identifier and returns no diagnostic; the read of a
    new resource (the one that follows a create) returns the error. *)
Theorem resourceRuleGroupRead_not_found conn d w output err w1 :
  FindRuleGroupByARN conn (Id d) w = Returns (output, err) w1 ->
  NotFound err = true ->
  if IsNewResource d then
    exists e,
      err = Some e
      /\ resourceRuleGroupRead conn d w =
         Returns (d, [Errorf "reading NetworkFirewall Rule Group (%s): %s"
                        [Id d] e]) w1
  else
    resourceRuleGroupRead conn d w = Returns (SetId "" d, []) w1
    /\ Id (SetId "" d) = "".
Proof.
  intros Hf Hnf. destruct (NotFound_is_error _ Hnf) as [e ->].
  rewrite (resourceRuleGroupRead_error _ _ _ _ _ _ Hf). rewrite Hnf.
  destruct (IsNewResource d); simpl; eauto.
Qed.

(** The read that follows a create runs on the resource data the create
    was given: marked new by the plugin SDK, it reports a not-found. *)
Lemma resourceRuleGroupCreate_reads_as_new conn d w o response :
  CreateRuleGroup conn (length (trace w)) (createRuleGroupInput d) = (Some o, None) ->
  created_RuleGroupResponse o = Some response ->
  let d' := SetId (StringValue (resp_RuleGroupArn response)) (MarkNewResource d) in
  IsNewResource d' = true
  /\ resourceRuleGroupCreate conn (MarkNewResource d) w =
     resourceRuleGroupRead conn d'
       (after_call conn
          (CreateRuleGroupCall (createRuleGroupInput d) (Some o) None) w).
Proof.
  intros Hreply Hresp d'. split; [reflexivity|].
  unfold resourceRuleGroupCreate, bind, CreateRuleGroupWithContext, call.
  change (createRuleGroupInput (MarkNewResource d)) with (createRuleGroupInput d).
  rewrite Hreply. simpl. rewrite Hresp. reflexivity.
Qed.

(** ** Update: the request *)

(** The request never carries both [Rules] and [RuleGroup]. *)
Lemma updateRuleGroupInput_not_both d :
  update_Rules (updateRuleGroupInput d) = None
  \/ update_RuleGroup (updateRuleGroupInput d) = None.
Proof.
  unfold updateRuleGroupInput, GetOk_string.
  destruct (HasChange attr_rules d); simpl; [right; reflexivity|].
  destruct (HasChange attr_rule_group d); simpl.
  - destruct (configuredRuleGroup d) eqn:Hc; simpl; [left; reflexivity|].
    break_if; simpl; [right; reflexivity|left; reflexivity].
  - break_if; simpl; [right; reflexivity|left; reflexivity].
Qed.

(** C9, as the code has it.  The request never carries both [Rules] and
    [RuleGroup].  A changed [rules] string is sent alone.  When neither
    attribute has changed, a non-empty [rules] string is sent alone.  When
    only [rule_group] has changed and holds a block, the block is sent and
    [Rules] is left out, whether or not a [rules] string is present. *)
Theorem updateRuleGroupInput_precedence d :
  (update_Rules (updateRuleGroupInput d) = None
   \/ update_RuleGroup (updateRuleGroupInput d) = None)
  /\ (HasChange attr_rules d = true ->
      update_Rules (updateRuleGroupInput d) = Some (Get attr_rules d)
      /\ update_RuleGroup (updateRuleGroupInput d) = None)
  /\ (HasChange attr_rules d = false ->
      HasChange attr_rule_group d = false ->
      Get attr_rules d <> "" ->
      update_Rules (updateRuleGroupInput d) = Some (Get attr_rules d)
      /\ update_RuleGroup (updateRuleGroupInput d) = None)
  /\ (HasChange attr_rules d = false ->
      HasChange attr_rule_group d = true ->
      forall rg, configuredRuleGroup d = Some rg ->
      update_Rules (updateRuleGroupInput d) = None
      /\ update_RuleGroup (updateRuleGroupInput d) = Some rg).
Proof.
  split; [apply updateRuleGroupInput_not_both|].
  unfold updateRuleGroupInput, GetOk_string.
  split; [intros Hr|split; [intros Hr Hg Hne|intros Hr Hg rg Hc]].
  - rewrite Hr. simpl. split; reflexivity.
  - rewrite Hr, Hg. simpl.
    destruct (String.eqb_spec (Get attr_rules d) ""); [contradiction|].
    simpl. split; reflexivity.
  - rewrite Hr, Hg. simpl. rewrite Hc. simpl. split; reflexivity.
Qed.

(** ** Create and update: one read, no polling *)

(** C1, as the code has it.  The create handler issues exactly one Create
    call.  When that call fails the handler reports the failure and issues
    nothing else.  When it succeeds the handler sets the identifier and
    reads the rule group once: one describe call, no waiting, no repetition;
    it reports what that one reply says, success for a rule group in any
    status. *)
Theorem resourceRuleGroupCreate_single_read conn d w :
  let input := createRuleGroupInput d in
  let reply := CreateRuleGroup conn (length (trace w)) input in
  let w1 := after_call conn (CreateRuleGroupCall input reply.1 reply.2) w in
  match reply.2 with
  | Some e =>
      resourceRuleGroupCreate conn d w =
      Returns (d, [Errorf "creating NetworkFirewall Rule Group (%s): %s"
                     [Get attr_name d] (AwsError e)]) w1
  | None =>
      match reply.1 ≫= created_RuleGroupResponse with
      | Some response =>
          let d1 := SetId (StringValue (resp_RuleGroupArn response)) d in
          resourceRuleGroupCreate conn d w = resourceRuleGroupRead conn d1 w1
          /\ reads_once conn d1 w1
      | None => resourceRuleGroupCreate conn d w = Panics w1
      end
  end.
Proof.
  intros input reply w1. subst w1.
  unfold resourceRuleGroupCreate, bind, CreateRuleGroupWithContext, call,
    after_call.
  fold input. fold reply. destruct reply as [output [e|]]; simpl.
  - reflexivity.
  - destruct output as [o|]; simpl; [|reflexivity].
    destruct (created_RuleGroupResponse o) as [response|]; simpl;
      [|reflexivity].
    split; [reflexivity|]. apply resourceRuleGroupRead_reads_once.
Qed.

(** C6, as the code has it.  When one of the five attributes has changed
    the update handler issues one Update call and, if it fails, reports
    the failure.  Otherwise, as after a create, it reads the rule group
    once: one describe call, no waiting, no repetition.  The read runs on
    a resource that is not new, so that a not-found clears the
    identifier. *)
Theorem resourceRuleGroupUpdate_single_read conn d w :
  if HasChanges_update d then
    let input := updateRuleGroupInput d in
    let reply := UpdateRuleGroup conn (length (trace w)) input in
    let w1 := after_call conn (UpdateRuleGroupCall input reply.1 reply.2) w in
    match reply.2 with
    | Some e =>
        resourceRuleGroupUpdate conn d w =
        Returns (d, [Errorf "updating NetworkFirewall Rule Group (%s): %s"
                       [Id d] (AwsError e)]) w1
    | None =>
        resourceRuleGroupUpdate conn d w = resourceRuleGroupRead conn d w1
        /\ reads_once conn d w1
    end
  else
    resourceRuleGroupUpdate conn d w = resourceRuleGroupRead conn d w
    /\ reads_once conn d w.
Proof.
  unfold resourceRuleGroupUpdate.
  destruct (HasChanges_update d); cbv iota zeta.
  - unfold bind, UpdateRuleGroupWithContext, call, after_call.
    destruct (UpdateRuleGroup conn (length (trace w)) (updateRuleGroupInput d))
      as [output [e|]]; simpl.
    + reflexivity.
    + split; [reflexivity|]. apply resourceRuleGroupRead_reads_once.
  - split; [reflexivity|]. apply resourceRuleGroupRead_reads_once.
Qed.

(** ** The refresh loop, one iteration at a time *)

Section RefreshLoop.

Context {R St : Type} (conf : StateChangeConf R St).

Lemma sleep_0 w : sleep 0 w = w.
Proof. destruct w as [t tr]. unfold sleep. simpl. f_equal. lia. Qed.

Lemma now_sleep d w : now (sleep d w) = now w + Z.max 0 d.
Proof. reflexivity. Qed.

(** The timeout fires while the goroutine sleeps. *)
Lemma refreshLoop_timeout_asleep deadline fuel first wait nt occ result s w :
  deadline <= now w + Z.max 0 wait ->
  refreshLoop conf deadline (S fuel) first wait nt occ result s w =
  Returns (None, Some (timeoutError conf result), s)
    (at_time (Z.max (now w) deadline) w).
Proof.
  intros Hle. cbn [refreshLoop].
  destruct (Z.leb_spec deadline (now w + Z.max 0 wait)); [reflexivity|lia].
Qed.

(** The refresh does not return within the grace period. *)
Lemma refreshLoop_abandoned deadline fuel first wait nt occ result s w r s' w' :
  now w + Z.max 0 wait < deadline ->
  conf_Refresh conf s (sleep wait w) = Returns (r, s') w' ->
  deadline + refreshGracePeriod <= now w' ->
  refreshLoop conf deadline (S fuel) first wait nt occ result s w =
  Returns (None, Some (timeoutError conf result), s)
    (at_time (deadline + refreshGracePeriod) w').
Proof.
  intros Hlt Href Hle. cbn [refreshLoop].
  destruct (Z.leb_spec deadline (now w + Z.max 0 wait)); [lia|].
  rewrite Href. destruct r as [[res st] err].
  destruct (Z.leb_spec (deadline + refreshGracePeriod) (now w'));
    [reflexivity|lia].
Qed.

(** The refresh returns an error. *)
Lemma refreshLoop_error deadline fuel first wait nt occ result s w res st e s' w' :
  now w + Z.max 0 wait < deadline ->
  conf_Refresh conf s (sleep wait w) = Returns ((res, st, Some e), s') w' ->
  now w' < deadline + refreshGracePeriod ->
  refreshLoop conf deadline (S fuel) first wait nt occ result s w =
  if deadline <=? now w' then
    Returns (None,
             Some (TimeoutError (Some e) st (conf_Timeout conf) (conf_Target conf)),
             s') w'
  else Returns (res, Some e, s') w'.
Proof.
  intros Hlt Href Hgrace. cbn [refreshLoop].
  destruct (Z.leb_spec deadline (now w + Z.max 0 wait)); [lia|].
  rewrite Href.
  destruct (Z.leb_spec (deadline + refreshGracePeriod) (now w')); [lia|].
  unfold stop. simpl. destruct (deadline <=? now w'); reflexivity.
Qed.

(** The refresh returns a value in a target state often enough. *)
Lemma refreshLoop_target deadline fuel first wait nt occ result s w r st s' w'
    found occ' :
  now w + Z.max 0 wait < deadline ->
  conf_Refresh conf s (sleep wait w) = Returns ((Some r, st, None), s') w' ->
  now w' < deadline + refreshGracePeriod ->
  scanTarget conf (conf_Target conf) st false occ = (true, found, occ') ->
  refreshLoop conf deadline (S fuel) first wait nt occ result s w =
  Returns (Some r, None, s') w'.
Proof.
  intros Hlt Href Hgrace Hscan. cbn [refreshLoop].
  destruct (Z.leb_spec deadline (now w + Z.max 0 wait)); [lia|].
  rewrite Href.
  destruct (Z.leb_spec (deadline + refreshGracePeriod) (now w')); [lia|].
  rewrite Hscan. reflexivity.
Qed.

End RefreshLoop.

(** ** The loop always ends

    The number of iterations [WaitForStateContext] is given is enough:
    when the refresh function returns and the clock does not run
    backwards, the wait returns; it neither panics nor is cut off. *)

Section Totality.

Context {R St : Type} (conf : StateChangeConf R St).

Hypothesis refresh_returns :
  forall s w, exists r w', conf_Refresh conf s w = Returns r w' /\ now w <= now w'.

Lemma minWait_pos : 0 < minWait conf.
Proof.
  unfold minWait, Millisecond.
  destruct (Z.ltb_spec 0 (conf_PollInterval conf)); simpl; [|lia].
  destruct (conf_PollInterval conf <? 180 * Second); lia.
Qed.

Lemma minWait_le : minWait conf <= 100 * Millisecond.
Proof.
  unfold minWait.
  destruct ((0 <? conf_PollInterval conf) && (conf_PollInterval conf <? 180 * Second));
    lia.
Qed.

Lemma nextWait_ge occ wait :
  minWait conf <= wait -> minWait conf <= nextWait conf occ wait.
Proof.
  intros Hw. pose proof minWait_pos as Hpos. unfold nextWait, minWait in *.
  destruct ((0 <? conf_PollInterval conf) && (conf_PollInterval conf <? 180 * Second)).
  - lia.
  - unfold Second, Millisecond in *.
    destruct (occ =? 0);
      repeat match goal with
             | |- context [?a <? ?b] => destruct (Z.ltb_spec a b)
             end; lia.
Qed.

Lemma stop_returns late r s w : returns (stop conf late r s w).
Proof. unfold returns, stop, ret. repeat break_if; eauto. Qed.

Lemma refreshLoop_returns deadline :
  forall fuel first wait nt occ result s w,
    now w < deadline ->
    (if first : bool then
       wait = 0 /\ deadline - now w <= (Z.of_nat fuel - 1) * minWait conf
     else
       minWait conf <= wait /\ deadline - now w <= Z.of_nat fuel * minWait conf) ->
    returns (refreshLoop conf deadline fuel first wait nt occ result s w).
Proof.
  pose proof minWait_pos as Hpos. pose proof minWait_le as Hle.
  induction fuel as [|fuel IH]; intros first wait nt occ result s w Hnow Hinv.
  - exfalso. destruct first; nia.
  - cbn [refreshLoop].
    destruct (Z.leb_spec deadline (now w + Z.max 0 wait));
      [unfold returns; eauto|].
    destruct (refresh_returns s (sleep wait w))
      as ([[[res st] err] s'] & w' & -> & Href).
    rewrite now_sleep in Href.
    destruct (Z.leb_spec (deadline + refreshGracePeriod) (now w'));
      [unfold returns; eauto|].
    assert (Hnext : forall wait' nt' occ' result',
               minWait conf <= wait' ->
               returns
                 (if deadline <=? now w'
                  then stop conf (deadline <=? now w') result' s' w'
                  else refreshLoop conf deadline fuel false wait' nt' occ'
                         result' s' w')).
    { intros wait' nt' occ' result' Hw'.
      destruct (Z.leb_spec deadline (now w')); [apply stop_returns|].
      apply IH; [assumption|]. split; [exact Hw'|].
      destruct first; nia. }
    assert (Hwait : minWait conf <= (if first then 100 * Millisecond else wait))
      by (destruct first; lia).
    destruct err as [e|]; [apply stop_returns|].
    destruct res as [r|].
    + destruct (scanTarget conf (conf_Target conf) st false occ)
        as [[isDone found] occ'].
      destruct isDone; [apply stop_returns|].
      destruct (scanPending conf st found occ') as [found' occ''].
      break_if; [apply stop_returns|].
      apply Hnext. apply nextWait_ge. exact Hwait.
    + destruct (conf_Target conf).
      * break_if; [apply stop_returns|]. apply Hnext. exact Hwait.
      * break_if; [apply stop_returns|].
        apply Hnext. apply nextWait_ge. exact Hwait.
Qed.

Lemma iterations_enough :
  0 < conf_Timeout conf ->
  conf_Timeout conf <= (Z.of_nat (iterations conf) - 1) * minWait conf.
Proof.
  intros Ht. pose proof minWait_pos as Hpos. unfold iterations.
  rewrite !Nat2Z.inj_succ.
  rewrite Z2Nat.id by (apply Z.div_pos; lia).
  pose proof (Z.mul_succ_div_gt (conf_Timeout conf) (minWait conf) Hpos). nia.
Qed.

Lemma WaitForStateContext_returns s w : returns (WaitForStateContext conf s w).
Proof.
  unfold WaitForStateContext.
  destruct (Z.leb_spec (now w + conf_Timeout conf)
              (now w + Z.max 0 (conf_Delay conf))); [unfold returns; eauto|].
  apply refreshLoop_returns.
  - rewrite now_sleep. lia.
  - split; [reflexivity|]. rewrite now_sleep.
    assert (Ht : 0 < conf_Timeout conf) by lia.
    pose proof (iterations_enough Ht). lia.
Qed.

End Totality.

(** ** The delete waiter *)

(** What the status function returns, from what the finder returns. *)
Lemma statusRuleGroup_not_found conn arn w output err w' :
  FindRuleGroupByARN conn arn w = Returns (output, err) w' ->
  NotFound err = true ->
  statusRuleGroup conn arn tt w = Returns ((None, "", None), tt) w'.
Proof.
  intros Hf Hnf. unfold statusRuleGroup, bind. rewrite Hf. rewrite Hnf.
  reflexivity.
Qed.

Lemma statusRuleGroup_found conn arn w o response w' :
  FindRuleGroupByARN conn arn w = Returns (Some o, None) w' ->
  described_RuleGroupResponse o = Some response ->
  statusRuleGroup conn arn tt w =
  Returns ((Some (described_RuleGroup o),
            StringValue (resp_RuleGroupStatus response), None), tt) w'.
Proof.
  intros Hf Hresp. unfold statusRuleGroup, bind. rewrite Hf. simpl.
  rewrite Hresp. reflexivity.
Qed.

(** An absent rule group ends the wait with success: the loop, at any
    iteration, returns the untyped [nil] and no error. *)
Lemma deleted_absent_step conn arn timeout deadline fuel first wait nt result w w' :
  now w + Z.max 0 wait < deadline ->
  statusRuleGroup conn arn tt (sleep wait w) = Returns ((None, "", None), tt) w' ->
  now w' < deadline + refreshGracePeriod ->
  refreshLoop (deletedConf conn arn timeout) deadline (S fuel) first wait nt 0
    result tt w =
  Returns (None, None, tt) w'.
Proof.
  intros Hlt Href Hgrace. cbn [refreshLoop].
  destruct (Z.leb_spec deadline (now w + Z.max 0 wait)); [lia|].
  cbn [conf_Refresh deletedConf]. rewrite Href.
  destruct (Z.leb_spec (deadline + refreshGracePeriod) (now w')); [lia|].
  reflexivity.
Qed.

(** A rule group in a status other than [DELETING] ends the wait with an
    [UnexpectedStateError], at any iteration. *)
Lemma deleted_unexpected_step conn arn timeout deadline fuel first wait nt occ
    result w rg status w' :
  now w + Z.max 0 wait < deadline ->
  statusRuleGroup conn arn tt (sleep wait w) =
    Returns ((Some rg, status, None), tt) w' ->
  status <> ResourceStatusDeleting ->
  now w' < deadline + refreshGracePeriod ->
  refreshLoop (deletedConf conn arn timeout) deadline (S fuel) first wait nt occ
    result tt w =
  if deadline <=? now w' then
    Returns (None,
             Some (TimeoutError (Some (UnexpectedStateError None status []))
                     status timeout []), tt) w'
  else Returns (Some rg, Some (UnexpectedStateError None status []), tt) w'.
Proof.
  intros Hlt Href Hst Hgrace. cbn [refreshLoop].
  destruct (Z.leb_spec deadline (now w + Z.max 0 wait)); [lia|].
  cbn [conf_Refresh deletedConf]. rewrite Href.
  destruct (Z.leb_spec (deadline + refreshGracePeriod) (now w')); [lia|].
  cbn [conf_Target deletedConf scanTarget]. unfold scanPending.
  cbn [conf_Pending deletedConf existsb].
  destruct (String.eqb_spec status ResourceStatusDeleting); [contradiction|].
  unfold stop. simpl. destruct (deadline <=? now w'); reflexivity.
Qed.

(** A rule group in status [DELETING] keeps the loop going, with the wait
    doubled and capped at ten seconds, unless the timeout has passed. *)
Lemma deleted_pending_step conn arn timeout deadline fuel first wait nt occ
    result w rg w' :
  now w + Z.max 0 wait < deadline ->
  statusRuleGroup conn arn tt (sleep wait w) =
    Returns ((Some rg, ResourceStatusDeleting, None), tt) w' ->
  now w' < deadline + refreshGracePeriod ->
  let result' :=
    {| res_Result := Some rg; res_State := ResourceStatusDeleting;
       res_Error := None; res_Done := false |} in
  refreshLoop (deletedConf conn arn timeout) deadline (S fuel) first wait nt occ
    result tt w =
  if deadline <=? now w' then
    Returns (None, Some (timeoutError (deletedConf conn arn timeout) result'), tt) w'
  else
    refreshLoop (deletedConf conn arn timeout) deadline fuel false
      (nextWait (deletedConf conn arn timeout) 0
         (if first then 100 * Millisecond else wait))
      0 0 result' tt w'.
Proof.
  intros Hlt Href Hgrace result'. cbn [refreshLoop].
  destruct (Z.leb_spec deadline (now w + Z.max 0 wait)); [lia|].
  cbn [conf_Refresh deletedConf]. rewrite Href.
  destruct (Z.leb_spec (deadline + refreshGracePeriod) (now w')); [lia|].
  cbn [conf_Target deletedConf scanTarget]. unfold scanPending.
  cbn [conf_Pending deletedConf existsb].
  rewrite String.eqb_refl. cbn [orb negb andb].
  unfold stop. simpl. destruct (deadline <=? now w'); reflexivity.
Qed.

(** ** Runs of the delete waiter *)

Lemma now_after_call conn e w : now w <= now (after_call conn e w).
Proof. unfold after_call. simpl. lia. Qed.

Lemma statusRuleGroup_deleting conn arn w :
  always_deleting conn arn ->
  exists rg,
    statusRuleGroup conn arn tt w =
    Returns ((Some rg, ResourceStatusDeleting, None), tt)
      (after_call conn (describeCall conn arn w) w).
Proof.
  intros Hdel. destruct (Hdel (length (trace w))) as (o & response & Hr & Hresp & Hst).
  exists (described_RuleGroup o).
  pose proof (FindRuleGroupByARN_found conn arn w o response Hr Hresp) as Hf.
  rewrite (statusRuleGroup_found _ _ _ _ _ _ Hf Hresp). rewrite Hst.
  unfold describeCall. rewrite Hr. reflexivity.
Qed.

Lemma nextWait_deleted_ge conn arn timeout wait :
  100 * Millisecond <= wait ->
  100 * Millisecond <= nextWait (deletedConf conn arn timeout) 0 wait.
Proof.
  intros Hw. unfold nextWait. cbn [conf_PollInterval conf_MinTimeout deletedConf].
  unfold Second, Millisecond in *. simpl.
  repeat match goal with
         | |- context [?a <? ?b] => destruct (Z.ltb_spec a b)
         end; lia.
Qed.

(** While every describe answers [DELETING] the loop ends with a
    [TimeoutError], between the timeout and the end of the grace period;
    at the timeout exactly when the calls take no time. *)
Lemma deleted_pending_loop conn arn timeout deadline :
  always_deleting conn arn ->
  forall fuel first wait nt occ result w,
    now w < deadline ->
    (if first : bool then
       wait = 0 /\ deadline - now w <= (Z.of_nat fuel - 1) * (100 * Millisecond)
     else
       100 * Millisecond <= wait
       /\ deadline - now w <= Z.of_nat fuel * (100 * Millisecond)) ->
    exists lastErr lastState w',
      refreshLoop (deletedConf conn arn timeout) deadline fuel first wait nt occ
        result tt w =
        Returns (None, Some (TimeoutError lastErr lastState timeout []), tt) w'
      /\ deadline <= now w' <= deadline + refreshGracePeriod
      /\ ((forall n, latency conn n = 0%N) -> now w' = deadline).
Proof.
  intros Hdel. induction fuel as [|fuel IH]; intros first wait nt occ result w Hnow Hinv.
  - exfalso. unfold Millisecond in Hinv. destruct first; lia.
  - assert (Hgp : 0 <= refreshGracePeriod)
      by (unfold refreshGracePeriod, Second, Millisecond; lia).
    destruct (Z_le_gt_dec deadline (now w + Z.max 0 wait)) as [Hle|Hgt].
    + rewrite refreshLoop_timeout_asleep by exact Hle.
      do 3 eexists. split; [reflexivity|]. unfold at_time. simpl. split; lia.
    + destruct (statusRuleGroup_deleting conn arn (sleep wait w) Hdel) as [rg Href].
      set (w' := after_call conn (describeCall conn arn (sleep wait w)) (sleep wait w)) in *.
      assert (Hmono : now w + Z.max 0 wait <= now w').
      { rewrite <- now_sleep. apply now_after_call. }
      destruct (Z_le_gt_dec (deadline + refreshGracePeriod) (now w')) as [Hab|Hin].
      * rewrite (refreshLoop_abandoned _ _ _ _ _ _ _ _ _ _ _ _ w') by
          (first [lia | exact Href]).
        do 3 eexists. split; [reflexivity|]. unfold at_time. simpl.
        split; [lia|]. intros Hz. exfalso.
        subst w'. unfold after_call in Hab. simpl in Hab. rewrite Hz in Hab.
        simpl in Hab. lia.
      * rewrite (deleted_pending_step _ _ _ _ _ _ _ _ _ _ _ rg w') by
          (first [lia | exact Href]).
        destruct (Z.leb_spec deadline (now w')) as [Hlate|Hearly].
        -- do 3 eexists. split; [reflexivity|]. split; [lia|].
           intros Hz. exfalso.
           subst w'. unfold after_call in Hlate. simpl in Hlate.
           rewrite Hz in Hlate. simpl in Hlate. lia.
        -- apply IH; [exact Hearly|]. split.
           ++ apply nextWait_deleted_ge. destruct first; lia.
           ++ unfold Millisecond in *. destruct first; lia.
Qed.

Lemma iterations_deleted conn arn timeout :
  0 < timeout ->
  timeout <=
  (Z.of_nat (iterations (deletedConf conn arn timeout)) - 1) * (100 * Millisecond).
Proof.
  intros Ht. unfold iterations.
  change (minWait (deletedConf conn arn timeout)) with (100 * Millisecond).
  cbn [conf_Timeout deletedConf]. rewrite !Nat2Z.inj_succ.
  assert (0 <= timeout / (100 * Millisecond))
    by (apply Z.div_pos; unfold Millisecond; lia).
  rewrite Z2Nat.id by assumption.
  pose proof (Z.mul_succ_div_gt timeout (100 * Millisecond)) as Hd.
  unfold Millisecond in *. lia.
Qed.

(** The waiter, from the loop. *)
Lemma waitRuleGroupDeleted_unfold conn arn timeout w :
  0 < timeout ->
  waitRuleGroupDeleted conn arn timeout w =
  match
    refreshLoop (deletedConf conn arn timeout) (now w + timeout)
      (iterations (deletedConf conn arn timeout)) true 0 0 0
      {| res_Result := None; res_State := ""; res_Error := None;
         res_Done := false |} tt w
  with
  | Returns (Some output, err, _) w' => Returns (output, err) w'
  | Returns (None, err, _) w' => Returns (None, err) w'
  | Panics w' => Panics w'
  | Unfinished => Unfinished
  end.
Proof.
  intros Ht. unfold waitRuleGroupDeleted, bind, WaitForStateContext.
  cbn [conf_Timeout conf_Delay deletedConf].
  destruct (Z.leb_spec (now w + timeout) (now w + Z.max 0 0)); [lia|].
  rewrite sleep_0.
  destruct (refreshLoop _ _ _ _ _ _ _ _ _ _) as [[[[output|] err] s] w'| |];
    reflexivity.
Qed.

(** A run of the waiter in which every describe answers [DELETING]. *)
Lemma waitRuleGroupDeleted_pending_run conn arn timeout w :
  0 < timeout ->
  always_deleting conn arn ->
  exists lastErr lastState w',
    waitRuleGroupDeleted conn arn timeout w =
      Returns (None, Some (TimeoutError lastErr lastState timeout [])) w'
    /\ timeout <= now w' - now w <= timeout + refreshGracePeriod
    /\ ((forall n, latency conn n = 0%N) -> now w' - now w = timeout).
Proof.
  intros Ht Hdel. rewrite waitRuleGroupDeleted_unfold by exact Ht.
  destruct (deleted_pending_loop conn arn timeout (now w + timeout) Hdel
              (iterations (deletedConf conn arn timeout)) true 0 0 0
              {| res_Result := None; res_State := ""; res_Error := None;
                 res_Done := false |} w)
    as (lastErr & lastState & w' & Hloop & Hbounds & Hzero).
  - lia.
  - split; [reflexivity|].
    pose proof (iterations_deleted conn arn timeout Ht). lia.
  - rewrite Hloop. exists lastErr, lastState, w'.
    split; [reflexivity|]. split; [lia|]. intros Hz. specialize (Hzero Hz). lia.
Qed.

(** [DELETING] is the one status the waiter polls on until the timeout. *)
Lemma deleting_is_transient : transient_in_delete_wait ResourceStatusDeleting.
Proof.
  intros conn arn timeout w Ht Hdel.
  destruct (waitRuleGroupDeleted_pending_run conn arn timeout w Ht Hdel)
    as (lastErr & lastState & w' & Hwait & Hbounds & _).
  exists lastErr, lastState, w'. split; [exact Hwait|lia].
Qed.

(** C8, as the code has it.  When every describe answers [DELETING] the
    waiter returns a [TimeoutError]; it returns no earlier than the
    timeout and no later than the timeout plus the refresh grace period of
    thirty seconds, and exactly at the timeout when the describe calls take
    no time. *)
Theorem waitRuleGroupDeleted_times_out conn arn timeout w :
  0 < timeout ->
  always_deleting conn arn ->
  exists lastErr lastState w',
    waitRuleGroupDeleted conn arn timeout w =
      Returns (None, Some (TimeoutError lastErr lastState timeout [])) w'
    /\ timeout <= now w' - now w <= timeout + refreshGracePeriod
    /\ ((forall n, latency conn n = 0%N) -> now w' - now w = timeout).
Proof. exact (waitRuleGroupDeleted_pending_run conn arn timeout w). Qed.

(** C3. In the wait that follows the delete call, a not-found answer of the
    finder ends the wait with success: at any iteration of the loop, and
    on the first one, where the waiter returns after that one describe
    call without having slept. *)
Theorem waitRuleGroupDeleted_not_found_converges conn arn timeout :
  (forall deadline fuel first wait nt result w output err w',
      now w + Z.max 0 wait < deadline ->
      FindRuleGroupByARN conn arn (sleep wait w) = Returns (output, err) w' ->
      NotFound err = true ->
      now w' < deadline + refreshGracePeriod ->
      refreshLoop (deletedConf conn arn timeout) deadline (S fuel) first wait
        nt 0 result tt w =
      Returns (None, None, tt) w')
  /\ (forall w output err w',
      0 < timeout ->
      FindRuleGroupByARN conn arn w = Returns (output, err) w' ->
      NotFound err = true ->
      now w' < now w + timeout + refreshGracePeriod ->
      waitRuleGroupDeleted conn arn timeout w = Returns (None, None) w'
      /\ w' = after_call conn (describeCall conn arn w) w).
Proof.
  split.
  - intros deadline fuel first wait nt result w output err w' Hlt Hf Hnf Hgrace.
    apply deleted_absent_step; [exact Hlt| |exact Hgrace].
    exact (statusRuleGroup_not_found _ _ _ _ _ _ Hf Hnf).
  - intros w output err w' Ht Hf Hnf Hgrace. split.
    + rewrite waitRuleGroupDeleted_unfold by exact Ht. unfold iterations.
      rewrite (deleted_absent_step conn arn timeout (now w + timeout) _ true 0 0
                 _ w w').
      * reflexivity.
      * lia.
      * rewrite sleep_0. exact (statusRuleGroup_not_found _ _ _ _ _ _ Hf Hnf).
      * lia.
    + destruct (FindRuleGroupByARN_one_call conn arn w) as [r Hr]. congruence.
Qed.

(** C4, as the code has it.  In the wait that follows the delete call only
    [DELETING] is a pending status: a describe that returns the rule group
    in any other status, before the timeout, ends the wait at once with an
    [UnexpectedStateError] that names the status; so at any iteration of
    the loop, and on the first one. *)
Theorem waitRuleGroupDeleted_unexpected_status conn arn timeout :
  (forall deadline fuel first wait nt occ result w o response w',
      now w + Z.max 0 wait < deadline ->
      FindRuleGroupByARN conn arn (sleep wait w) = Returns (Some o, None) w' ->
      described_RuleGroupResponse o = Some response ->
      StringValue (resp_RuleGroupStatus response) <> ResourceStatusDeleting ->
      now w' < deadline ->
      refreshLoop (deletedConf conn arn timeout) deadline (S fuel) first wait
        nt occ result tt w =
      Returns (Some (described_RuleGroup o),
               Some (UnexpectedStateError None
                       (StringValue (resp_RuleGroupStatus response)) []),
               tt) w')
  /\ (forall w o response w',
      FindRuleGroupByARN conn arn w = Returns (Some o, None) w' ->
      described_RuleGroupResponse o = Some response ->
      StringValue (resp_RuleGroupStatus response) <> ResourceStatusDeleting ->
      now w' < now w + timeout ->
      waitRuleGroupDeleted conn arn timeout w =
      Returns (described_RuleGroup o,
               Some (UnexpectedStateError None
                       (StringValue (resp_RuleGroupStatus response)) [])) w').
Proof.
  assert (Hgp : 0 < refreshGracePeriod)
    by (unfold refreshGracePeriod, Second, Millisecond; lia).
  assert (Hstep : forall deadline fuel first wait nt occ result w o response w',
      now w + Z.max 0 wait < deadline ->
      FindRuleGroupByARN conn arn (sleep wait w) = Returns (Some o, None) w' ->
      described_RuleGroupResponse o = Some response ->
      StringValue (resp_RuleGroupStatus response) <> ResourceStatusDeleting ->
      now w' < deadline ->
      refreshLoop (deletedConf conn arn timeout) deadline (S fuel) first wait
        nt occ result tt w =
      Returns (Some (described_RuleGroup o),
               Some (UnexpectedStateError None
                       (StringValue (resp_RuleGroupStatus response)) []),
               tt) w').
  { intros deadline fuel first wait nt occ result w o response w'
      Hlt Hf Hresp Hst Hin.
    rewrite (deleted_unexpected_step conn arn timeout deadline fuel first wait
               nt occ result w (described_RuleGroup o)
               (StringValue (resp_RuleGroupStatus response)) w').
    - destruct (Z.leb_spec deadline (now w')); [lia|reflexivity].
    - exact Hlt.
    - exact (statusRuleGroup_found _ _ _ _ _ _ Hf Hresp).
    - exact Hst.
    - lia. }
  split; [exact Hstep|].
  intros w o response w' Hf Hresp Hst Hin.
  assert (Ht : 0 < timeout).
  { destruct (FindRuleGroupByARN_one_call conn arn w) as [r Hr].
    rewrite Hr in Hf. injection Hf as _ <-.
    pose proof (now_after_call conn (describeCall conn arn w) w). lia. }
  rewrite waitRuleGroupDeleted_unfold by exact Ht. unfold iterations.
  rewrite (Hstep (now w + timeout) _ true 0 0 0 _ w o response w').
  - reflexivity.
  - lia.
  - rewrite sleep_0. exact Hf.
  - exact Hresp.
  - exact Hst.
  - exact Hin.
Qed.

(** ** Delete *)

(** For an absent rule group the finder answers not found. *)
Lemma absent_not_found conn arn w :
  absent conn arn ->
  exists e w',
    FindRuleGroupByARN conn arn w = Returns (None, Some e) w'
    /\ NotFound (Some e) = true.
Proof.
  intros Habs. destruct (Habs (length (trace w))) as [_ (output & a & Hr & Hc)].
  do 2 eexists. split.
  - apply FindRuleGroupByARN_not_found with (output := output); [exact Hr|].
    apply String.eqb_eq. exact Hc.
  - reflexivity.
Qed.

(** The delete call of an absent rule group. *)
Lemma DeleteRuleGroupWithContext_absent conn arn w :
  absent conn arn ->
  exists output a,
    DeleteRuleGroupWithContext conn (deleteInput arn) w =
      Returns (output, Some (AwsError a))
        (after_call conn (DeleteRuleGroupCall (deleteInput arn) output (Some a)) w)
    /\ Code a = ErrCodeResourceNotFoundException.
Proof.
  intros Habs. destruct (Habs (length (trace w))) as [(output & a & Hr & Hc) _].
  exists output, a. split; [|exact Hc].
  unfold DeleteRuleGroupWithContext, call, after_call. rewrite Hr. reflexivity.
Qed.

(** [RetryWhen] when the first attempt fails with an error that is not
    retryable: the error is returned, unless the attempt outlasts the
    timeout and the grace period, in which case [f] is called again. *)
Lemma RetryWhen_not_retryable {O : Type} timeout (f : M (option O * option error))
    retryable w output a w1 :
  0 < timeout ->
  f w = Returns (output, Some (AwsError a)) w1 ->
  retryable (Some (AwsError a)) = (false, Some (AwsError a)) ->
  RetryWhen timeout f retryable w =
  if now w + timeout + refreshGracePeriod <=? now w1 then
    match f (at_time (now w + timeout + refreshGracePeriod) w1) with
    | Returns (output', Some e') w2 => Returns (None, Some e') w2
    | Returns (output', None) w2 => Returns (output', None) w2
    | Panics w2 => Panics w2
    | Unfinished => Unfinished
    end
  else Returns (None, Some (AwsError a)) w1.
Proof.
  intros Ht Hf Hretry.
  unfold RetryWhen, Retry, bind at 1 2, WaitForStateContext.
  cbn [conf_Timeout conf_Delay retryConf].
  destruct (Z.leb_spec (now w + timeout) (now w + Z.max 0 0)); [lia|].
  rewrite sleep_0. unfold iterations.
  match goal with
  | |- context [refreshLoop ?c ?dl (S ?fu) true 0 0 0 ?res ?s w] =>
      set (conf := c); set (fuel := fu); set (result := res)
  end.
  assert (Href : conf_Refresh conf (None, None) (sleep 0 w) =
                 Returns ((None, "quit", Some (AwsError a)),
                          (output, Some (AwsError a))) w1).
  { rewrite sleep_0. subst conf. cbn [conf_Refresh retryConf].
    unfold bind. rewrite Hf. rewrite Hretry. reflexivity. }
  destruct (Z.leb_spec (now w + timeout + refreshGracePeriod) (now w1)) as [Hab|Hin].
  - rewrite (refreshLoop_abandoned conf _ fuel true 0 0 0 result _ w _ _ w1)
      by (first [lia | exact Href]).
    subst conf result. unfold timeoutError, TimedOut. cbn [res_Error res_State].
    unfold ret, bind.
    destruct (f (at_time (now w + timeout + refreshGracePeriod) w1))
      as [[output' [e'|]] w2| |]; reflexivity.
  - rewrite (refreshLoop_error conf _ fuel true 0 0 0 result _ w _ _ _ _ w1)
      by (first [lia | exact Href]).
    destruct (now w + timeout <=? now w1); reflexivity.
Qed.

(** [RetryWhen] when the first attempt succeeds within the timeout and the
    grace period. *)
Lemma RetryWhen_success {O : Type} timeout (f : M (option O * option error))
    retryable w output w1 :
  0 < timeout ->
  f w = Returns (output, None) w1 ->
  retryable None = (false, None) ->
  now w1 < now w + timeout + refreshGracePeriod ->
  RetryWhen timeout f retryable w = Returns (output, None) w1.
Proof.
  intros Ht Hf Hretry Hgrace.
  unfold RetryWhen, Retry, bind at 1 2, WaitForStateContext.
  cbn [conf_Timeout conf_Delay retryConf].
  destruct (Z.leb_spec (now w + timeout) (now w + Z.max 0 0)); [lia|].
  rewrite sleep_0. unfold iterations.
  match goal with
  | |- context [refreshLoop ?c ?dl (S ?fu) true 0 0 0 ?res ?s w] =>
      set (conf := c); set (fuel := fu); set (result := res)
  end.
  assert (Href : conf_Refresh conf (None, None) (sleep 0 w) =
                 Returns ((Some 42, "success", None), (output, None)) w1).
  { rewrite sleep_0. subst conf. cbn [conf_Refresh retryConf].
    unfold bind. rewrite Hf. rewrite Hretry. reflexivity. }
  rewrite (refreshLoop_target conf _ fuel true 0 0 0 result _ w _ _ _ w1 true 1)
    by (first [lia | exact Href | reflexivity]).
  reflexivity.
Qed.

(** The delete of a rule group that is absent. *)
Lemma resourceRuleGroupDelete_gone conn d w :
  absent conn (Id d) ->
  exists w', resourceRuleGroupDelete conn d w = Returns (d, []) w'.
Proof.
  intros Habs.
  destruct (DeleteRuleGroupWithContext_absent conn (Id d) w Habs)
    as (output & a & Hcall & Hcode).
  assert (Hnf : forall a', Code a' = ErrCodeResourceNotFoundException ->
                ErrCodeEquals (Some (AwsError a')) ErrCodeResourceNotFoundException
                = true).
  { intros a' Hc. unfold ErrCodeEquals. simpl. rewrite Hc. reflexivity. }
  unfold resourceRuleGroupDelete, RetryWhenAWSErrMessageContains, bind at 1.
  change {| delete_RuleGroupArn := String_ (Id d) |} with (deleteInput (Id d)).
  rewrite (RetryWhen_not_retryable deleteTimeout _ _ w output a
             (after_call conn
                (DeleteRuleGroupCall (deleteInput (Id d)) output (Some a)) w)).
  - destruct (Z.leb_spec (now w + deleteTimeout + refreshGracePeriod)
                (now (after_call conn
                        (DeleteRuleGroupCall (deleteInput (Id d)) output (Some a))
                        w))).
    + destruct (DeleteRuleGroupWithContext_absent conn (Id d)
                  (at_time (now w + deleteTimeout + refreshGracePeriod)
                     (after_call conn
                        (DeleteRuleGroupCall (deleteInput (Id d)) output (Some a))
                        w)) Habs)
        as (output' & a' & Hcall' & Hcode').
      rewrite Hcall'. rewrite (Hnf a' Hcode'). eexists. reflexivity.
    + rewrite (Hnf a Hcode). eexists. reflexivity.
  - unfold deleteTimeout, Minute, Second, Millisecond. lia.
  - exact Hcall.
  - unfold ErrMessageContains. simpl. rewrite Hcode. reflexivity.
Qed.

(** The delete of a rule group that the service accepts to delete and the
    finder then reports as not found. *)
Lemma resourceRuleGroupDelete_accepted conn d w output found err w2 :
  DeleteRuleGroup conn (length (trace w)) (deleteInput (Id d)) = (output, None) ->
  let w1 := after_call conn (DeleteRuleGroupCall (deleteInput (Id d)) output None) w in
  now w1 < now w + deleteTimeout + refreshGracePeriod ->
  FindRuleGroupByARN conn (Id d) w1 = Returns (found, err) w2 ->
  NotFound err = true ->
  now w2 < now w1 + deleteTimeout + refreshGracePeriod ->
  resourceRuleGroupDelete conn d w = Returns (d, []) w2.
Proof.
  intros Hreply w1 Hin Hf Hnf Hin2.
  assert (Ht : 0 < deleteTimeout)
    by (unfold deleteTimeout, Minute, Second, Millisecond; lia).
  unfold resourceRuleGroupDelete, RetryWhenAWSErrMessageContains, bind at 1.
  change {| delete_RuleGroupArn := String_ (Id d) |} with (deleteInput (Id d)).
  rewrite (RetryWhen_success deleteTimeout _ _ w output w1);
    [|exact Ht| |reflexivity|exact Hin].
  - cbn [ErrCodeEquals]. unfold bind.
    rewrite waitRuleGroupDeleted_unfold by exact Ht. unfold iterations.
    rewrite (deleted_absent_step conn (Id d) deleteTimeout (now w1 + deleteTimeout)
               _ true 0 0 _ w1 w2).
    + reflexivity.
    + lia.
    + rewrite sleep_0. exact (statusRuleGroup_not_found _ _ _ _ _ _ Hf Hnf).
    + lia.
  - unfold DeleteRuleGroupWithContext, call. rewrite Hreply. reflexivity.
Qed.

(** C2. When the rule group is already absent, so that the finder answers
    not found, the delete handler returns no diagnostic and leaves the
    resource data as it is: when the service answers the delete call, too,
    with resource-not-found; and when the service accepts the delete call
    and the finder then answers not found. *)
Theorem resourceRuleGroupDelete_absent conn d w :
  (absent conn (Id d) ->
   (exists e w1,
       FindRuleGroupByARN conn (Id d) w = Returns (None, Some e) w1
       /\ NotFound (Some e) = true)
   /\ exists w', resourceRuleGroupDelete conn d w = Returns (d, []) w')
  /\ (forall output found err w2,
        DeleteRuleGroup conn (length (trace w)) (deleteInput (Id d)) =
          (output, None) ->
        let w1 := after_call conn
                    (DeleteRuleGroupCall (deleteInput (Id d)) output None) w in
        now w1 < now w + deleteTimeout + refreshGracePeriod ->
        FindRuleGroupByARN conn (Id d) w1 = Returns (found, err) w2 ->
        NotFound err = true ->
        now w2 < now w1 + deleteTimeout + refreshGracePeriod ->
        resourceRuleGroupDelete conn d w = Returns (d, []) w2).
Proof.
  split.
  - intros Habs. split.
    + apply absent_not_found. exact Habs.
    + apply resourceRuleGroupDelete_gone. exact Habs.
  - intros output found err w2. apply resourceRuleGroupDelete_accepted.
Qed.

(** ** The delete handler returns *)

(** The delete waiter returns, for every service. *)
Lemma waitRuleGroupDeleted_returns conn arn timeout w :
  returns (waitRuleGroupDeleted conn arn timeout w).
Proof.
  unfold waitRuleGroupDeleted, bind.
  assert (Hwait : returns (WaitForStateContext (deletedConf conn arn timeout) tt w));
    [apply WaitForStateContext_returns
    |destruct Hwait as ([[outputRaw err] s'] & w' & ->)].
  - intros [] w0. cbn [conf_Refresh deletedConf].
    destruct (statusRuleGroup_returns conn arn w0) as [r ->].
    do 2 eexists. split; [reflexivity|]. apply now_after_call.
  - destruct outputRaw; unfold returns, ret; eauto.
Qed.

(** The delete call, retried, returns, for every service. *)
Lemma RetryWhen_delete_returns conn input retryable w :
  returns (RetryWhen deleteTimeout (DeleteRuleGroupWithContext conn input)
             retryable w).
Proof.
  unfold RetryWhen, Retry, bind at 1 2.
  match goal with
  | |- context [WaitForStateContext ?c ?s0 w] =>
      assert (Hwait : returns (WaitForStateContext c s0 w));
        [apply WaitForStateContext_returns
        |destruct Hwait as ([[res waitErr] [output resultErr]] & w' & ->)]
  end.
  - intros [t re] w0. cbn [conf_Refresh retryConf].
    unfold bind, DeleteRuleGroupWithContext, call, ret.
    destruct (retryable _) as [[|] err]; [|destruct err];
      try destruct (retry_Retryable _);
      do 2 eexists; (split; [reflexivity|simpl; lia]).
  - unfold ret, bind.
    destruct resultErr as [e|].
    + destruct (TimedOut (Some e)).
      * unfold DeleteRuleGroupWithContext, call.
        destruct (AwsError <$> _); unfold returns; eauto.
      * unfold returns; eauto.
    + destruct (TimedOut waitErr).
      * unfold DeleteRuleGroupWithContext, call.
        destruct (AwsError <$> _); unfold returns; eauto.
      * destruct waitErr; unfold returns; eauto.
Qed.

(** The delete handler returns, for every service: it does not panic and
    its two waits end. *)
Lemma resourceRuleGroupDelete_returns conn d w :
  returns (resourceRuleGroupDelete conn d w).
Proof.
  unfold resourceRuleGroupDelete, RetryWhenAWSErrMessageContains, bind at 1.
  destruct (RetryWhen_delete_returns conn
              {| delete_RuleGroupArn := String_ (Id d) |}
              (fun err =>
                 if ErrMessageContains err ErrCodeInvalidOperationException
                      "Unable to delete the object because it is still in use"
                 then (true, err) else (false, err)) w)
    as ([output err] & w1 & ->).
  break_if; [unfold returns, ret; eauto|].
  destruct err as [e|]; [unfold returns, ret; eauto|].
  unfold bind.
  destruct (waitRuleGroupDeleted_returns conn (Id d) deleteTimeout w1)
    as ([rg err] & w2 & ->).
  destruct err; unfold returns, ret; eauto.
Qed.


(** * Further properties of the handlers *)

(** ** Read *)

(** X1. A describe reply that carries the rule group response but not the
    rule group itself is an empty result and is handled as not found: the
    read of a resource that is not new clears the identifier and returns
    no diagnostic, the read of a new resource returns the empty-result
    error. *)
Theorem resourceRuleGroupRead_empty_result conn d w o response :
  DescribeRuleGroup conn (length (trace w)) (describeInput (Id d)) = (Some o, None) ->
  described_RuleGroupResponse o = Some response ->
  described_RuleGroup o = None ->
  let w' := after_call conn
              (DescribeRuleGroupCall (describeInput (Id d)) (Some o) None) w in
  NotFound (Some (NewEmptyResultError (ReqId (Id d)))) = true
  /\ resourceRuleGroupRead conn d w =
     if IsNewResource d then
       Returns (d, [Errorf "reading NetworkFirewall Rule Group (%s): %s" [Id d]
                      (NewEmptyResultError (ReqId (Id d)))]) w'
     else Returns (SetId "" d, []) w'.
Proof.
  intros Hreply Hresp Hrg w'. split; [reflexivity|].
  apply resourceRuleGroupRead_empty with (o := o); [|exact Hrg].
  apply FindRuleGroupByARN_found with (response := response); assumption.
Qed.

(** X2. Whatever the service answers, the read leaves the prior state, the
    new-resource mark, the incoming tags and the [rules] attribute as they
    are; it changes the identifier only to clear it, and only for a
    resource that is not new; and when it returns a diagnostic it returns
    the resource data untouched. *)
Theorem resourceRuleGroupRead_preserves conn d w d' diags w' :
  resourceRuleGroupRead conn d w = Returns (d', diags) w' ->
  prior d' = prior d
  /\ IsNewResource d' = IsNewResource d
  /\ TagsIn d' = TagsIn d
  /\ Get attr_rules d' = Get attr_rules d
  /\ (Id d' = Id d \/ (Id d' = "" /\ IsNewResource d = false /\ diags = []))
  /\ (diags <> [] -> d' = d).
Proof.
  destruct (FindRuleGroupByARN_one_call conn (Id d) w) as [[output err] Hf].
  destruct err as [e|].
  - rewrite (resourceRuleGroupRead_error _ _ _ _ _ _ Hf).
    destruct (negb (IsNewResource d) && NotFound (Some e)) eqn:Hc;
      intros [= <- <- <-].
    + apply andb_true_iff in Hc as [Hnew _]. apply negb_true_iff in Hnew.
      repeat split; auto. intros Hd. contradiction.
    + repeat split; auto.
  - destruct (FindRuleGroupByARN_success_inv _ _ _ _ _ Hf)
      as (o & response & -> & Hresp).
    destruct (described_RuleGroup o) as [rg|] eqn:Hrg.
    + rewrite (resourceRuleGroupRead_found _ _ _ _ _ _ _ Hf Hresp Hrg).
      intros [= <- <- <-]. repeat split; auto. intros Hd. contradiction.
    + rewrite (resourceRuleGroupRead_empty _ _ _ _ _ Hf Hrg).
      destruct (IsNewResource d) eqn:Hnew; intros [= <- <- <-].
      * repeat split; auto.
      * repeat split; auto. intros Hd. contradiction.
Qed.

(** ** Update: the request *)

(** X3. The update request carries neither [Rules] nor [RuleGroup] exactly
    when the [rules] string is unchanged and empty and the [rule_group]
    attribute holds no block; in every other case it carries exactly one
    of the two. *)
Theorem updateRuleGroupInput_exactly_one d :
  (update_Rules (updateRuleGroupInput d) = None
   /\ update_RuleGroup (updateRuleGroupInput d) = None
   <-> HasChange attr_rules d = false
       /\ Get attr_rules d = ""
       /\ configuredRuleGroup d = None)
  /\ (update_Rules (updateRuleGroupInput d) = None
      \/ update_RuleGroup (updateRuleGroupInput d) = None).
Proof.
  split; [|apply updateRuleGroupInput_not_both].
  unfold updateRuleGroupInput, GetOk_string.
  destruct (HasChange attr_rules d); simpl.
  - split; [intros [[=] _]|intros [[=] _]].
  - destruct (String.eqb_spec (Get attr_rules d) "") as [Hempty|Hrules];
      destruct (HasChange attr_rule_group d); simpl;
      destruct (configuredRuleGroup d) as [rg|]; simpl;
      try rewrite Hempty; unfold String_; simpl; intuition congruence.
Qed.

(** ** Delete *)

Lemma deleteTimeout_pos : 0 < deleteTimeout.
Proof. unfold deleteTimeout, Minute, Second, Millisecond. lia. Qed.

(** X4. A delete call that the service rejects with an error that is
    neither resource-not-found nor the retried still-in-use error, and
    that returns within the timeout and the grace period, ends the delete
    at once: the handler reports that error and issues no describe
    call. *)
Theorem resourceRuleGroupDelete_rejected conn d w output a :
  DeleteRuleGroup conn (length (trace w)) (deleteInput (Id d)) = (output, Some a) ->
  Code a <> ErrCodeResourceNotFoundException ->
  ErrMessageContains (Some (AwsError a)) ErrCodeInvalidOperationException
    "Unable to delete the object because it is still in use" = false ->
  let w1 := after_call conn
              (DeleteRuleGroupCall (deleteInput (Id d)) output (Some a)) w in
  now w1 < now w + deleteTimeout + refreshGracePeriod ->
  resourceRuleGroupDelete conn d w =
  Returns (d, [Errorf "deleting NetworkFirewall Rule Group (%s): %s" [Id d]
                 (AwsError a)]) w1.
Proof.
  intros Hreply Hcode Hretry w1 Hin.
  unfold resourceRuleGroupDelete, RetryWhenAWSErrMessageContains, bind at 1.
  change {| delete_RuleGroupArn := String_ (Id d) |} with (deleteInput (Id d)).
  rewrite (RetryWhen_not_retryable deleteTimeout _ _ w output a w1).
  - destruct (Z.leb_spec (now w + deleteTimeout + refreshGracePeriod) (now w1));
      [lia|].
    unfold ErrCodeEquals. simpl.
    destruct (String.eqb_spec (Code a) ErrCodeResourceNotFoundException);
      [contradiction|reflexivity].
  - exact deleteTimeout_pos.
  - unfold DeleteRuleGroupWithContext, call. rewrite Hreply. reflexivity.
  - rewrite Hretry. reflexivity.
Qed.

(** X5. When the service accepts the delete call and the describe of the
    wait then fails with an error that is not a not-found, before the
    timeout of the wait, the wait ends at that describe and the handler
    reports the error as a failure of the wait. *)
Theorem resourceRuleGroupDelete_wait_failure conn d w output found e w2 :
  DeleteRuleGroup conn (length (trace w)) (deleteInput (Id d)) = (output, None) ->
  let w1 := after_call conn
              (DeleteRuleGroupCall (deleteInput (Id d)) output None) w in
  now w1 < now w + deleteTimeout + refreshGracePeriod ->
  FindRuleGroupByARN conn (Id d) w1 = Returns (found, Some e) w2 ->
  NotFound (Some e) = false ->
  now w2 < now w1 + deleteTimeout ->
  waitRuleGroupDeleted conn (Id d) deleteTimeout w1 = Returns (None, Some e) w2
  /\ resourceRuleGroupDelete conn d w =
     Returns (d, [Errorf "waiting for NetworkFirewall Rule Group (%s) delete : %s"
                    [Id d] e]) w2.
Proof.
  intros Hreply w1 Hin Hf Hnf Hin2.
  pose proof deleteTimeout_pos as Ht.
  assert (Hgp : 0 < refreshGracePeriod)
    by (unfold refreshGracePeriod, Second, Millisecond; lia).
  assert (Hwait : waitRuleGroupDeleted conn (Id d) deleteTimeout w1 =
                  Returns (None, Some e) w2).
  { rewrite waitRuleGroupDeleted_unfold by exact Ht. unfold iterations.
    rewrite (refreshLoop_error (deletedConf conn (Id d) deleteTimeout)
               (now w1 + deleteTimeout) _ true 0 0 0 _ tt w1 None "" e tt w2).
    - destruct (Z.leb_spec (now w1 + deleteTimeout) (now w2)); [lia|reflexivity].
    - lia.
    - rewrite sleep_0. cbn [conf_Refresh deletedConf].
      unfold statusRuleGroup, bind. rewrite Hf, Hnf. reflexivity.
    - lia. }
  split; [exact Hwait|].
  unfold resourceRuleGroupDelete, RetryWhenAWSErrMessageContains, bind at 1.
  change {| delete_RuleGroupArn := String_ (Id d) |} with (deleteInput (Id d)).
  rewrite (RetryWhen_success deleteTimeout _ _ w output w1);
    [|exact Ht| |reflexivity|exact Hin].
  - cbn [ErrCodeEquals]. unfold bind. rewrite Hwait. reflexivity.
  - unfold DeleteRuleGroupWithContext, call. rewrite Hreply. reflexivity.
Qed.

(** ** The wait is bounded for every service *)

Section Bounded.

Context {R St : Type} (conf : StateChangeConf R St).

Hypothesis refresh_returns :
  forall s w, exists r w', conf_Refresh conf s w = Returns r w' /\ now w <= now w'.

Lemma stop_returns_by late r s w t :
  now w <= t -> returns_by t (stop conf late r s w).
Proof. intros Ht. unfold returns_by, stop, ret. repeat break_if; eauto. Qed.

Lemma refreshLoop_returns_by deadline :
  forall fuel first wait nt occ result s w,
    now w < deadline ->
    (if first : bool then
       wait = 0 /\ deadline - now w <= (Z.of_nat fuel - 1) * minWait conf
     else
       minWait conf <= wait /\ deadline - now w <= Z.of_nat fuel * minWait conf) ->
    returns_by (deadline + refreshGracePeriod)
      (refreshLoop conf deadline fuel first wait nt occ result s w).
Proof.
  pose proof (minWait_pos conf) as Hpos. pose proof (minWait_le conf) as Hle.
  assert (Hgp : 0 < refreshGracePeriod)
    by (unfold refreshGracePeriod, Second, Millisecond; lia).
  induction fuel as [|fuel IH]; intros first wait nt occ result s w Hnow Hinv.
  - exfalso. destruct first; nia.
  - cbn [refreshLoop].
    destruct (Z.leb_spec deadline (now w + Z.max 0 wait)).
    { do 2 eexists. split; [reflexivity|]. unfold at_time. simpl. lia. }
    destruct (refresh_returns s (sleep wait w))
      as ([[[res st] err] s'] & w' & -> & Href).
    rewrite now_sleep in Href.
    destruct (Z.leb_spec (deadline + refreshGracePeriod) (now w')).
    { do 2 eexists. split; [reflexivity|]. unfold at_time. simpl. lia. }
    assert (Hstop : forall late r, returns_by (deadline + refreshGracePeriod)
                                     (stop conf late r s' w'))
      by (intros late r; apply stop_returns_by; lia).
    assert (Hnext : forall wait' nt' occ' result',
               minWait conf <= wait' ->
               returns_by (deadline + refreshGracePeriod)
                 (if deadline <=? now w'
                  then stop conf (deadline <=? now w') result' s' w'
                  else refreshLoop conf deadline fuel false wait' nt' occ'
                         result' s' w')).
    { intros wait' nt' occ' result' Hw'.
      destruct (Z.leb_spec deadline (now w')); [apply Hstop|].
      apply IH; [assumption|]. split; [exact Hw'|].
      destruct first; nia. }
    assert (Hwait : minWait conf <= (if first then 100 * Millisecond else wait))
      by (destruct first; lia).
    destruct err as [e|]; [apply Hstop|].
    destruct res as [r|].
    + destruct (scanTarget conf (conf_Target conf) st false occ)
        as [[isDone found] occ'].
      destruct isDone; [apply Hstop|].
      destruct (scanPending conf st found occ') as [found' occ''].
      break_if; [apply Hstop|].
      apply Hnext. apply nextWait_ge. exact Hwait.
    + destruct (conf_Target conf).
      * break_if; [apply Hstop|]. apply Hnext. exact Hwait.
      * break_if; [apply Hstop|].
        apply Hnext. apply nextWait_ge. exact Hwait.
Qed.

Lemma WaitForStateContext_returns_by s w :
  0 < conf_Timeout conf ->
  returns_by (now w + conf_Timeout conf + refreshGracePeriod)
    (WaitForStateContext conf s w).
Proof.
  intros Ht.
  assert (Hgp : 0 < refreshGracePeriod)
    by (unfold refreshGracePeriod, Second, Millisecond; lia).
  unfold WaitForStateContext.
  destruct (Z.leb_spec (now w + conf_Timeout conf)
              (now w + Z.max 0 (conf_Delay conf))).
  { do 2 eexists. split; [reflexivity|]. unfold at_time. simpl. lia. }
  apply refreshLoop_returns_by.
  - rewrite now_sleep. lia.
  - split; [reflexivity|]. rewrite now_sleep.
    pose proof (iterations_enough conf Ht). lia.
Qed.

End Bounded.

(** X6. Whatever the service answers, the delete waiter returns: it does
    not panic, and it returns no later than the timeout plus the refresh
    grace period of thirty seconds after it was called. *)
Theorem waitRuleGroupDeleted_bounded conn arn timeout w :
  0 < timeout ->
  exists r w',
    waitRuleGroupDeleted conn arn timeout w = Returns r w'
    /\ now w' <= now w + timeout + refreshGracePeriod.
Proof.
  intros Ht. unfold waitRuleGroupDeleted, bind.
  assert (Hwait : returns_by (now w + timeout + refreshGracePeriod)
                    (WaitForStateContext (deletedConf conn arn timeout) tt w)).
  { apply (WaitForStateContext_returns_by (deletedConf conn arn timeout)).
    - intros [] w0. cbn [conf_Refresh deletedConf].
      destruct (statusRuleGroup_returns conn arn w0) as [r ->].
      do 2 eexists. split; [reflexivity|]. apply now_after_call.
    - exact Ht. }
  destruct Hwait as ([[outputRaw err] s'] & w' & -> & Hby).
  destruct outputRaw; unfold ret; eauto.
Qed.

(** X7. Whatever the service answers, the delete handler returns: it does
    not panic and both of its waits end.  It returns the resource data it
    was given, unchanged, and at most one diagnostic. *)
Theorem resourceRuleGroupDelete_keeps_data conn d w :
  exists diags w',
    resourceRuleGroupDelete conn d w = Returns (d, diags) w'
    /\ (length diags <= 1)%nat.
Proof.
  unfold resourceRuleGroupDelete, RetryWhenAWSErrMessageContains, bind at 1.
  destruct (RetryWhen_delete_returns conn
              {| delete_RuleGroupArn := String_ (Id d) |}
              (fun err =>
                 if ErrMessageContains err ErrCodeInvalidOperationException
                      "Unable to delete the object because it is still in use"
                 then (true, err) else (false, err)) w)
    as ([output err] & w1 & ->).
  break_if; [unfold ret; do 2 eexists; split; [reflexivity|simpl; lia]|].
  destruct err as [e|];
    [unfold ret; do 2 eexists; split; [reflexivity|simpl; lia]|].
  unfold bind.
  destruct (waitRuleGroupDeleted_returns conn (Id d) deleteTimeout w1)
    as ([rg err] & w2 & ->).
  destruct err; unfold ret; do 2 eexists; (split; [reflexivity|simpl; lia]).
Qed.

End Properties.

(** * Properties of the nested block conversions *)

Lemma stringField_singleton k p :
  stringField {[ k := VString (StringValue p) ]} k = unlessEmpty p.
Proof.
  unfold stringField, unlessEmpty. rewrite lookup_singleton_eq.
  destruct p as [s|]; simpl; [|reflexivity].
  destruct (String.eqb s ""); reflexivity.
Qed.

Lemma stringField_insert k p (m : gmap string value) :
  stringField (<[k := VString (StringValue p)]> m) k = unlessEmpty p.
Proof.
  unfold stringField, unlessEmpty. rewrite lookup_insert_eq.
  destruct p as [s|]; simpl; [|reflexivity].
  destruct (String.eqb s ""); reflexivity.
Qed.

Lemma stringField_insert_ne k k' v (m : gmap string value) :
  k' <> k -> stringField (<[k' := v]> m) k = stringField m k.
Proof. intros Hk. unfold stringField. rewrite lookup_insert_ne by exact Hk. reflexivity. Qed.

Lemma StringValue_unlessEmpty p : StringValue (unlessEmpty p) = StringValue p.
Proof.
  unfold unlessEmpty. destruct p as [s|]; simpl; [|reflexivity].
  destruct (String.eqb_spec s ""); simpl; congruence.
Qed.

Lemma readBackHeader_flattened h :
  expandStatefulRuleHeader (flattenHeader (Some h)) = Some (readBackHeader h).
Proof.
  unfold flattenHeader, expandStatefulRuleHeader, readBackHeader. cbn [emptyOrNil].
  repeat f_equal;
    repeat (first [apply stringField_insert | apply stringField_singleton
                  | rewrite stringField_insert_ne by discriminate]).
Qed.

(** X8. A header that is flattened and expanded again comes back with
    every field that pointed to the empty string set to nil, and otherwise
    as it was; the nil header comes back as nil.  Flattening the result
    gives the same block as flattening the header itself. *)
Theorem expandStatefulRuleHeader_flattenHeader h :
  expandStatefulRuleHeader (flattenHeader h) = readBackHeader <$> h
  /\ flattenHeader (expandStatefulRuleHeader (flattenHeader h)) = flattenHeader h.
Proof.
  destruct h as [h|]; [|split; reflexivity].
  rewrite readBackHeader_flattened. split; [reflexivity|].
  unfold flattenHeader, readBackHeader; cbn [Destination DestinationPort Direction
    Protocol Source SourcePort].
  rewrite !StringValue_unlessEmpty. reflexivity.
Qed.

(** ** Lists of blocks *)

(** What a flatten returned: its argument has no nil element, and the
    loop of the expand visits every element of the result. *)
Lemma maps_flattened {A : Type} (f : A -> gmap string value)
    (d : list (option A)) (l : list value) :
  mapM (fun a : option A => a ← a; Some (VMap (f a))) d = Some l ->
  exists d', d = Some <$> d'
             /\ l = (fun a => VMap (f a)) <$> d'
             /\ maps l = f <$> d'.
Proof.
  revert l. induction d as [|a d IH]; intros l Hl.
  - apply mapM_Some in Hl. inversion Hl. subst. exists []. repeat split.
  - rewrite mapM_Some in Hl. inversion Hl as [|? y ? k Ha Hd]; subst.
    destruct a as [a|]; [|discriminate]. simpl in Ha. injection Ha as <-.
    apply mapM_Some in Hd. destruct (IH _ Hd) as (d' & -> & -> & Hm).
    exists (a :: d'). repeat split. unfold maps in *. simpl. f_equal. exact Hm.
Qed.

Lemma expand_flattened {A : Type} (g : gmap string value -> A)
    (f : A -> gmap string value) (readBack : A -> A) (d : list A) :
  (forall a, g (f a) = readBack a) ->
  (fun tfMap => Some (g tfMap)) <$> (f <$> d)
  = (fun a : option A => readBack <$> a) <$> (Some <$> d).
Proof.
  intros Hg. induction d as [|a d IH]; [reflexivity|].
  cbn [fmap list_fmap] in *. rewrite Hg, IH. reflexivity.
Qed.

(** X9. When [flattenAddresses] returns, [expandAddresses] of its result
    is nil if there was no address and otherwise the addresses in their
    order, each with a definition that pointed to the empty string set to
    nil: the empty slice does not come back as the empty slice. *)
Theorem expandAddresses_flattenAddresses d l :
  flattenAddresses (Some d) = Some l ->
  expandAddresses l =
  match d with
  | [] => None
  | _ => Some ((fun a : option Address => readBackAddress <$> a) <$> d)
  end.
Proof.
  intros Hl. apply maps_flattened in Hl as (d' & -> & -> & Hm).
  unfold expandAddresses. rewrite Hm.
  rewrite (expand_flattened
             (fun tfMap =>
                {| AddressDefinition := stringField tfMap "address_definition" |})
             _ readBackAddress)
    by (intros a; unfold readBackAddress; rewrite stringField_singleton;
        reflexivity).
  destruct d'; reflexivity.
Qed.

Lemma intField_insert k n (m : gmap string value) :
  intField (<[k := VInt n]> m) k = Some n.
Proof. unfold intField. rewrite lookup_insert_eq. reflexivity. Qed.

Lemma intField_insert_ne k k' v (m : gmap string value) :
  k' <> k -> intField (<[k' := v]> m) k = intField m k.
Proof. intros Hk. unfold intField. rewrite lookup_insert_ne by exact Hk. reflexivity. Qed.

Lemma intField_singleton k n : intField {[ k := VInt n ]} k = Some n.
Proof. unfold intField. rewrite lookup_singleton_eq. reflexivity. Qed.

Lemma expandPortRange_flattened r :
  {| FromPort :=
       intField {[ "from_port" := VInt (Int64Value (FromPort r));
                   "to_port" := VInt (Int64Value (ToPort r)) ]} "from_port";
     ToPort :=
       intField {[ "from_port" := VInt (Int64Value (FromPort r));
                   "to_port" := VInt (Int64Value (ToPort r)) ]} "to_port" |}
  = readBackPortRange r.
Proof.
  unfold readBackPortRange.
  rewrite intField_insert, intField_insert_ne by discriminate.
  rewrite intField_singleton. reflexivity.
Qed.

(** X10. When [flattenPortRanges] returns, [expandPortRanges] of its
    result is nil if there was no port range and otherwise the port ranges
    in their order, with every port that was not set now set to 0: unlike
    a string, which is left out when empty, a port is sent whenever the
    block is there. *)
Theorem expandPortRanges_flattenPortRanges pr l :
  flattenPortRanges (Some pr) = Some l ->
  expandPortRanges l =
  match pr with
  | [] => None
  | _ => Some ((fun r : option PortRange => readBackPortRange <$> r) <$> pr)
  end.
Proof.
  intros Hl. apply maps_flattened in Hl as (pr' & -> & -> & Hm).
  unfold expandPortRanges. rewrite Hm.
  rewrite (expand_flattened
             (fun tfMap =>
                {| FromPort := intField tfMap "from_port";
                   ToPort := intField tfMap "to_port" |})
             _ readBackPortRange)
    by (intros r; apply expandPortRange_flattened).
  destruct pr'; reflexivity.
Qed.

(** ** Nil elements *)

Lemma flattenRuleOptions_None o :
  flattenRuleOptions o = None <-> exists l, o = Some l /\ None ∈ l.
Proof.
  unfold flattenRuleOptions. destruct o as [l|].
  - rewrite mapM_None, Exists_exists. split.
    + intros ([option|] & Hin & Hnone); [discriminate|].
      exists l. split; [reflexivity|].
      exact Hin.
    + intros (? & [= <-] & Hin). exists None.
      split; [exact Hin|reflexivity].
  - split; [discriminate|]. intros (? & [=] & _).
Qed.

(** X11. [flattenStatefulRules] dereferences every rule and every rule
    option without a test: it panics exactly when the slice holds a nil
    rule, or a rule whose options hold a nil option.  The nil slice and a
    rule with a nil header or with nil options are flattened. *)
Theorem flattenStatefulRules_panics sr :
  flattenStatefulRules sr = None
  <-> exists l,
        sr = Some l
        /\ (None ∈ l
            \/ exists s o, Some s ∈ l /\ RuleOptions s = Some o /\ None ∈ o).
Proof.
  unfold flattenStatefulRules. destruct sr as [l|].
  - rewrite mapM_None, Exists_exists. split.
    + intros ([s|] & Hin & Hnone).
      * exists l. split; [reflexivity|]. right. simpl in Hnone.
        destruct (flattenRuleOptions (RuleOptions s)) eqn:Ho; [discriminate|].
        apply flattenRuleOptions_None in Ho as (o & Ho & Hnil). eauto.
      * exists l. split; [reflexivity|]. left. exact Hin.
    + intros (? & [= <-] & [Hin|(s & o & Hin & Ho & Hnil)]).
      * exists None. split; [exact Hin|reflexivity].
      * exists (Some s). split; [exact Hin|].
        simpl.
        replace (flattenRuleOptions (RuleOptions s)) with (@None (list value));
          [reflexivity|].
        symmetry. apply flattenRuleOptions_None. eauto.
  - split; [discriminate|]. intros (? & [=] & _).
Qed.

(** ** References to IP sets *)

Lemma stringField_insert_string k s (m : gmap string value) :
  stringField (<[k := VString s]> m) k = if String.eqb s "" then None else Some s.
Proof. unfold stringField. rewrite lookup_insert_eq. reflexivity. Qed.

(** One turn of the loop on a flattened entry. *)
Lemma expandIPSetReferencesStep_flattened acc k v :
  expandIPSetReferencesStep acc
    (VMap {[ "key" := VString k;
             "ip_set_reference" := VList (flattenIPSetReference v) ]})
  = if sentReference k v then <[k := v]> acc else acc.
Proof.
  unfold expandIPSetReferencesStep, sentReference.
  rewrite stringField_insert_string.
  destruct (String.eqb k ""); [reflexivity|]. cbn [negb andb].
  rewrite lookup_insert_ne by discriminate. rewrite lookup_singleton_eq.
  destruct v as [[arn]|]; [|reflexivity]. cbn [flattenIPSetReference ReferenceArn].
  rewrite stringField_singleton. unfold unlessEmpty.
  destruct arn as [arn|]; [|reflexivity].
  change (StringValue (Some arn)) with arn.
  destruct (String.eqb arn ""); reflexivity.
Qed.

Lemma expandIPSetReferences_loop order :
  forall acc,
    foldl expandIPSetReferencesStep acc
      ((fun '(k, v) =>
          VMap {[ "key" := VString k;
                  "ip_set_reference" := VList (flattenIPSetReference v) ]})
       <$> order)
    = foldl insertSent acc order.
Proof.
  induction order as [|[k v] order IH]; intros acc; [reflexivity|].
  cbn [fmap list_fmap foldl]. rewrite expandIPSetReferencesStep_flattened.
  apply IH.
Qed.

Lemma sent_loop_lookup (order : list (string * option IPSetReference)) :
  forall acc k,
    NoDup order.*1 ->
    foldl insertSent acc order !! k
    = match (list_to_map order : gmap string (option IPSetReference)) !! k with
      | Some v => if sentReference k v then Some v else acc !! k
      | None => acc !! k
      end.
Proof.
  induction order as [|[k0 v0] order IH]; intros acc k Hnd.
  - simpl. rewrite lookup_empty. reflexivity.
  - rewrite fmap_cons in Hnd. apply NoDup_cons in Hnd as [Hk0 Hnd].
    cbn [foldl list_to_map foldr uncurry fst snd]. rewrite IH by exact Hnd.
    unfold insertSent at 1 2. cbn [fst snd].
    destruct (decide (k = k0)) as [->|Hne].
    + rewrite lookup_insert_eq.
      rewrite (not_elem_of_list_to_map_1 order k0) by exact Hk0.
      destruct (sentReference k0 v0); [apply lookup_insert_eq|reflexivity].
    + rewrite (lookup_insert_ne _ k0 k) by congruence.
      destruct (list_to_map order !! k) as [v|] eqn:Hv.
      * destruct (sentReference k v); [reflexivity|].
        destruct (sentReference k0 v0); [|reflexivity].
        apply lookup_insert_ne. congruence.
      * destruct (sentReference k0 v0); [|reflexivity].
        apply lookup_insert_ne. congruence.
Qed.

Lemma sent_loop m (order : list (string * option IPSetReference)) :
  rangeOver m order ->
  foldl insertSent ∅ order
  = filter (fun kv => sentReference kv.1 kv.2 = true) m.
Proof.
  intros Hrange. unfold rangeOver in Hrange.
  assert (Hnd : NoDup order.*1).
  { rewrite Hrange. apply NoDup_fst_map_to_list. }
  assert (Hm : (list_to_map order : gmap string (option IPSetReference)) = m).
  { rewrite (list_to_map_proper order (map_to_list m) Hnd Hrange).
    apply list_to_map_to_list. }
  apply map_eq. intros k. rewrite sent_loop_lookup by exact Hnd. rewrite Hm.
  rewrite lookup_empty.
  destruct (m !! k) as [v|] eqn:Hv.
  - destruct (sentReference k v) eqn:Hs; symmetry.
    + apply map_lookup_filter_Some. split; [exact Hv|exact Hs].
    + apply map_lookup_filter_None. right. intros v' Hv'. simpl.
      rewrite Hv in Hv'. injection Hv' as <-. rewrite Hs. discriminate.
  - symmetry. apply map_lookup_filter_None. left. exact Hv.
Qed.

(** X12. The references to IP sets survive a flatten and an expand in
    whatever order the map is visited and the flattened entries are then
    listed: the nil map and the empty map come back as nil; any other map
    comes back as a map that is not nil, without the entries whose key or
    reference ARN is empty or nil. *)
Theorem expandIPSetReferences_flattenIPSetReferences m order l :
  rangeOver m order ->
  l ≡ₚ flattenIPSetReferences (Some m) order ->
  expandIPSetReferences (flattenIPSetReferences None order) = None
  /\ expandIPSetReferences l =
     if decide (m = ∅) then None
     else Some (filter (fun kv => sentReference kv.1 kv.2 = true) m).
Proof.
  intros Hrange Hl. split; [reflexivity|].
  cbn [flattenIPSetReferences] in Hl.
  apply Permutation_map_inv in Hl as (order' & Hl & Horder).
  change (map ?f order') with (f <$> order') in Hl. subst l.
  assert (Hrange' : rangeOver m order').
  { unfold rangeOver in *. rewrite <- Horder. exact Hrange. }
  unfold expandIPSetReferences.
  destruct (decide (m = ∅)) as [->|Hne].
  - unfold rangeOver in Hrange'. rewrite map_to_list_empty in Hrange'.
    apply Permutation_nil_r in Hrange'. subst order'. reflexivity.
  - rewrite expandIPSetReferences_loop, (sent_loop m) by exact Hrange'.
    destruct order' as [|[k v] rest]; [|reflexivity].
    exfalso. apply Hne. apply map_to_list_empty_iff.
    unfold rangeOver in Hrange'. symmetry in Hrange'.
    apply Permutation_nil_r in Hrange'. exact Hrange'.
Qed.

(** ** The options of a stateful rule *)

Lemma elem_of_maps tfMap l : tfMap ∈ maps l <-> VMap tfMap ∈ l.
Proof.
  unfold maps. rewrite list_elem_of_omap. split.
  - intros (v & Hin & Hv). destruct v; try discriminate.
    injection Hv as ->. exact Hin.
  - intros Hin. exists (VMap tfMap). split; [exact Hin|reflexivity].
Qed.

Lemma expandStatefulRuleOption_None ExpandStringSet tfMap :
  expandStatefulRuleOption ExpandStringSet tfMap = None
  <-> forall keyword, tfMap !! "keyword" <> Some (VString keyword).
Proof.
  unfold expandStatefulRuleOption.
  destruct (tfMap !! "keyword") as [[]|]; split;
    solve [discriminate | reflexivity | intros H; exfalso; eapply H; reflexivity
          | intros _ ? ?; discriminate ].
Qed.

(** X13. Whatever [flex.ExpandStringSet] does, [expandStatefulRuleOptions]
    panics exactly when its list is not empty, does not start with nil and
    holds a map in which [keyword] is missing or is not a string.  When it
    returns options, there is one for every map of the list, in order,
    and its keyword is set to the string of the map, the empty string
    included. *)
Theorem expandStatefulRuleOptions_keyword ExpandStringSet l :
  (expandStatefulRuleOptions ExpandStringSet l = None
   <-> emptyOrNil l = false
       /\ exists tfMap,
            VMap tfMap ∈ l
            /\ forall keyword, tfMap !! "keyword" <> Some (VString keyword))
  /\ (forall options,
        expandStatefulRuleOptions ExpandStringSet l = Some (Some options) ->
        Forall2 (fun tfMap option =>
                   exists keyword settings,
                     tfMap !! "keyword" = Some (VString keyword)
                     /\ option = Some {| Keyword := Some keyword;
                                         Settings := settings |})
          (maps l) options).
Proof.
  unfold expandStatefulRuleOptions. split.
  - destruct (emptyOrNil l).
    + split; [discriminate|]. intros [[=] _].
    + rewrite fmap_None, mapM_None, Exists_exists. split.
      * intros (tfMap & Hin & Hnone). split; [reflexivity|].
        exists tfMap. split; [apply elem_of_maps, Hin|].
        eapply expandStatefulRuleOption_None, Hnone.
      * intros (_ & tfMap & Hin & Hkey). exists tfMap.
        split; [apply elem_of_maps, Hin|].
        apply expandStatefulRuleOption_None, Hkey.
  - intros options. destruct (emptyOrNil l); [discriminate|].
    intros Hsome. apply fmap_Some in Hsome as (options' & Hm & [= <-]).
    apply mapM_Some in Hm. eapply Forall2_impl; [exact Hm|].
    intros tfMap option Ho. unfold expandStatefulRuleOption in Ho.
    destruct (tfMap !! "keyword") as [[]|]; try discriminate.
    injection Ho as <-. eauto.
Qed.

Lemma ruleOptionsField_None ExpandStringSet tfMap :
  ruleOptionsField ExpandStringSet tfMap = None
  <-> exists v, tfMap !! "rule_option" = Some (VSet v)
                /\ expandStatefulRuleOptions ExpandStringSet v = None.
Proof.
  unfold ruleOptionsField. split.
  - destruct (tfMap !! "rule_option") as [[| | | | |[|x v]|]|]; try discriminate.
    intros Hnone. exists (x :: v). split; [reflexivity|exact Hnone].
  - intros (v & -> & Hnone). destruct v as [|x v]; [discriminate|exact Hnone].
Qed.

(** X14. Whatever [flex.ExpandStringSet] does, [expandStatefulRules]
    panics exactly when its list is not empty, does not start with nil and
    holds a rule whose [rule_option] set makes
    [expandStatefulRuleOptions] panic.  Nothing else in a rule does: an
    action or a header of the wrong shape is left out. *)
Theorem expandStatefulRules_panics ExpandStringSet l :
  expandStatefulRules ExpandStringSet l = None
  <-> emptyOrNil l = false
      /\ exists tfMap v,
           VMap tfMap ∈ l
           /\ tfMap !! "rule_option" = Some (VSet v)
           /\ expandStatefulRuleOptions ExpandStringSet v = None.
Proof.
  unfold expandStatefulRules. destruct (emptyOrNil l).
  - split; [discriminate|]. intros [[=] _].
  - rewrite fmap_None, mapM_None, Exists_exists. split.
    + intros (tfMap & Hin & Hnone). split; [reflexivity|].
      destruct (ruleOptionsField ExpandStringSet tfMap) eqn:Hf; [discriminate|].
      apply ruleOptionsField_None in Hf as (v & Hv & Hp).
      exists tfMap, v. split; [apply elem_of_maps, Hin|]. split; assumption.
    + intros (_ & tfMap & v & Hin & Hv & Hp). exists tfMap.
      split; [apply elem_of_maps, Hin|].
      replace (ruleOptionsField ExpandStringSet tfMap)
        with (@None (option (list (option RuleOption)))); [reflexivity|].
      symmetry. apply ruleOptionsField_None. eauto.
Qed.

(** * The properties at concrete inputs *)

Lemma statusConn_always_deleting lat :
  always_deleting (statusConn "DELETING" lat) exampleArn.
Proof. intros n. do 2 eexists. repeat split; reflexivity. Qed.

(** The delete of a rule group that is gone, and the delete of a rule group
    that the service accepts to delete and then reports gone. *)
Lemma resourceRuleGroupDelete_absent_witness :
  (absent goneConn (Id existingData)
   /\ exists w',
        resourceRuleGroupDelete goneConn existingData startWorld =
        Returns (existingData, []) w')
  /\ resourceRuleGroupDelete acceptingConn existingData startWorld =
     Returns (existingData, [])
       {| now := 0;
          trace := [DeleteRuleGroupCall (deleteInput exampleArn) deleteAccepted.1
                      None;
                    DescribeRuleGroupCall (describeInput exampleArn)
                      describeGone.1 (Some notFound)] |}.
Proof.
  destruct (resourceRuleGroupDelete_absent goneConn existingData startWorld)
    as [Hgone _].
  destruct (resourceRuleGroupDelete_absent acceptingConn existingData startWorld)
    as [_ Haccepted].
  assert (Habsent : absent goneConn (Id existingData))
    by (intros n; split; eexists _, notFound; split; reflexivity).
  split.
  - split; [exact Habsent|]. exact (proj2 (Hgone Habsent)).
  - eapply Haccepted; reflexivity.
Defined.

(** The waiter on a rule group that is gone: one describe call at time 0,
    and success; the same at a later iteration of the loop. *)
Lemma waitRuleGroupDeleted_not_found_converges_witness :
  waitRuleGroupDeleted goneConn exampleArn deleteTimeout startWorld =
    Returns (None, None)
      {| now := 0; trace := [describeCall goneConn exampleArn startWorld] |}
  /\ refreshLoop (deletedConf goneConn exampleArn deleteTimeout) deleteTimeout 1
       false (200 * Millisecond) 0 0
       {| res_Result := Some None; res_State := "DELETING"; res_Error := None;
          res_Done := false |} tt startWorld =
     Returns (None, None, tt)
       {| now := 200 * Millisecond;
          trace := [describeCall goneConn exampleArn startWorld] |}.
Proof.
  destruct (waitRuleGroupDeleted_not_found_converges goneConn exampleArn
              deleteTimeout) as [Hany Hfirst].
  split.
  - eapply Hfirst; reflexivity.
  - eapply Hany; reflexivity.
Defined.

(** The waiter on a rule group that stays [ACTIVE]: an error at the first
    describe, at time 0. *)
Lemma waitRuleGroupDeleted_unexpected_status_witness :
  waitRuleGroupDeleted (statusConn "ACTIVE" 0) exampleArn deleteTimeout startWorld =
    Returns (Some "pass tcp any any -> any any (sid:1;)",
             Some (UnexpectedStateError None "ACTIVE" []))
      {| now := 0;
         trace := [describeCall (statusConn "ACTIVE" 0) exampleArn startWorld] |}
  /\ refreshLoop (deletedConf (statusConn "ACTIVE" 0) exampleArn deleteTimeout)
       deleteTimeout 1 false (200 * Millisecond) 0 0
       {| res_Result := Some None; res_State := "DELETING"; res_Error := None;
          res_Done := false |} tt startWorld =
     Returns (Some (Some "pass tcp any any -> any any (sid:1;)"),
              Some (UnexpectedStateError None "ACTIVE" []), tt)
       {| now := 200 * Millisecond;
          trace := [describeCall (statusConn "ACTIVE" 0) exampleArn startWorld] |}.
Proof.
  destruct (waitRuleGroupDeleted_unexpected_status (statusConn "ACTIVE" 0)
              exampleArn deleteTimeout) as [Hany Hfirst].
  split.
  - eapply (Hfirst startWorld (exampleOutput "ACTIVE") (exampleResponse "ACTIVE"));
      [reflexivity|reflexivity|discriminate|reflexivity].
  - eapply (Hany _ _ _ _ _ _ _ startWorld (exampleOutput "ACTIVE")
              (exampleResponse "ACTIVE"));
      [reflexivity|reflexivity|reflexivity|discriminate|reflexivity].
Defined.

(** The finder on a rule group that is gone. *)
Lemma FindRuleGroupByARN_classifies_failures_witness :
  DescribeRuleGroup goneConn 0 (describeInput exampleArn) = describeGone
  /\ FindRuleGroupByARN goneConn exampleArn startWorld =
     Returns (None,
              Some (NotFoundError (Some (AwsError notFound))
                      (Some (ReqDescribe (describeInput exampleArn))) 0))
       {| now := 0; trace := [describeCall goneConn exampleArn startWorld] |}
  /\ NotFound (Some (NotFoundError (Some (AwsError notFound))
                       (Some (ReqDescribe (describeInput exampleArn))) 0)) = true.
Proof.
  split; [reflexivity|].
  exact (FindRuleGroupByARN_classifies_failures goneConn exampleArn startWorld _
           notFound eq_refl).
Defined.

(** The finder on a rule group that exists, and on a reply that carries
    neither an error nor a rule group response. *)
Lemma FindRuleGroupByARN_success_not_nil_witness :
  (FindRuleGroupByARN (statusConn "ACTIVE" 0) exampleArn startWorld =
     Returns ((inStatus "ACTIVE").1, None)
       {| now := 0;
          trace := [describeCall (statusConn "ACTIVE" 0) exampleArn startWorld] |}
   /\ exists o response,
        (inStatus "ACTIVE").1 = Some o
        /\ described_RuleGroupResponse o = Some response)
  /\ FindRuleGroupByARN blankConn exampleArn startWorld =
     Returns (None, Some (NewEmptyResultError (ReqDescribe (describeInput exampleArn))))
       {| now := 0; trace := [describeCall blankConn exampleArn startWorld] |}.
Proof.
  split.
  - split; [reflexivity|].
    exact (proj1 (FindRuleGroupByARN_success_not_nil (statusConn "ACTIVE" 0)
                    exampleArn startWorld) _ _ eq_refl).
  - exact (proj1 (proj2 (FindRuleGroupByARN_success_not_nil blankConn exampleArn
                           startWorld)) _ eq_refl eq_refl).
Defined.

(** The read of a rule group that is gone: the identifier is cleared for
    an existing resource, the error is returned for a new one. *)
Lemma resourceRuleGroupRead_not_found_witness :
  (IsNewResource existingData = false
   /\ resourceRuleGroupRead goneConn existingData startWorld =
      Returns (SetId "" existingData, [])
        {| now := 0; trace := [describeCall goneConn exampleArn startWorld] |})
  /\ (IsNewResource (MarkNewResource existingData) = true
      /\ exists e,
           resourceRuleGroupRead goneConn (MarkNewResource existingData) startWorld =
           Returns (MarkNewResource existingData,
                    [Errorf "reading NetworkFirewall Rule Group (%s): %s"
                       [exampleArn] e])
             {| now := 0; trace := [describeCall goneConn exampleArn startWorld] |}).
Proof.
  split; (split; [reflexivity|]).
  - exact (proj1 (resourceRuleGroupRead_not_found goneConn existingData startWorld
                    _ _ _ eq_refl eq_refl)).
  - destruct (resourceRuleGroupRead_not_found goneConn
                (MarkNewResource existingData) startWorld _ _ _ eq_refl eq_refl)
      as (e & _ & Hread).
    exists e. exact Hread.
Defined.

(** The waiter on a rule group that stays [DELETING], with calls that take
    no time: a timeout error after ten minutes exactly. *)
Lemma waitRuleGroupDeleted_times_out_witness :
  0 < deleteTimeout
  /\ always_deleting (statusConn "DELETING" 0) exampleArn
  /\ exists lastErr lastState w',
       waitRuleGroupDeleted (statusConn "DELETING" 0) exampleArn deleteTimeout
         startWorld =
       Returns (None, Some (TimeoutError lastErr lastState deleteTimeout [])) w'
       /\ now w' - now startWorld = deleteTimeout.
Proof.
  assert (Hdeleting : always_deleting (statusConn "DELETING" 0) exampleArn)
    by (intros n; do 2 eexists; repeat split; reflexivity).
  split; [reflexivity|]. split; [exact Hdeleting|].
  destruct (waitRuleGroupDeleted_times_out (statusConn "DELETING" 0) exampleArn
              deleteTimeout startWorld eq_refl Hdeleting)
    as (lastErr & lastState & w' & Hwait & _ & Hexact).
  exists lastErr, lastState, w'. split; [exact Hwait|].
  apply Hexact. reflexivity.
Defined.

(** The update request at three inputs: [rules] changed; nothing but the
    description changed; only [rule_group] changed. *)
Lemma updateRuleGroupInput_precedence_witness :
  (HasChange attr_rules rulesChangedData = true
   /\ update_Rules (updateRuleGroupInput rulesChangedData) =
      Some "drop tcp any any -> any any (sid:2;)"
   /\ update_RuleGroup (updateRuleGroupInput rulesChangedData) = None)
  /\ (HasChange attr_rules existingData = false
      /\ HasChange attr_rule_group existingData = false
      /\ update_Rules (updateRuleGroupInput existingData) =
         Some "pass tcp any any -> any any (sid:1;)"
      /\ update_RuleGroup (updateRuleGroupInput existingData) = None)
  /\ (HasChange attr_rules blockChangedData = false
      /\ HasChange attr_rule_group blockChangedData = true
      /\ update_Rules (updateRuleGroupInput blockChangedData) = None
      /\ update_RuleGroup (updateRuleGroupInput blockChangedData) =
         Some "rule_variables: HOME_NET = 10.1.0.0/16").
Proof.
  split; [|split].
  - split; [reflexivity|].
    exact (proj1 (proj2 (updateRuleGroupInput_precedence rulesChangedData))
             eq_refl).
  - do 2 (split; [reflexivity|]).
    refine (proj1 (proj2 (proj2 (updateRuleGroupInput_precedence existingData)))
              eq_refl eq_refl _).
    discriminate.
  - do 2 (split; [reflexivity|]).
    exact (proj2 (proj2 (proj2 (updateRuleGroupInput_precedence blockChangedData)))
             eq_refl eq_refl _ eq_refl).
Defined.

(** The create on a service that reports the new rule group [DELETING] at
    the first describe and [ACTIVE] afterwards: two calls, and success. *)
Lemma resourceRuleGroupCreate_single_read_witness :
  exists d',
    resourceRuleGroupCreate settlingConn newData startWorld =
    Returns (d', [])
      {| now := 0;
         trace :=
           [CreateRuleGroupCall (createRuleGroupInput newData)
              (CreateRuleGroup settlingConn 0 (createRuleGroupInput newData)).1
              None;
            DescribeRuleGroupCall (describeInput exampleArn)
              (inStatus "DELETING").1 None] |}.
Proof.
  destruct (resourceRuleGroupCreate_single_read settlingConn newData startWorld)
    as [Hcreate (r & Hread & Hfound & _)].
  exists (setFromRemote (exampleOutput "DELETING") (exampleResponse "DELETING")
            (SetId exampleArn newData)).
  rewrite Hcreate, Hread.
  rewrite (Hfound _ _ _ eq_refl eq_refl eq_refl). reflexivity.
Defined.

(** The update on a rule group that is gone: two calls, the identifier
    cleared, no diagnostic. *)
Lemma resourceRuleGroupUpdate_single_read_witness :
  resourceRuleGroupUpdate goneConn existingData startWorld =
  Returns (SetId "" existingData, [])
    {| now := 0;
       trace :=
         [UpdateRuleGroupCall (updateRuleGroupInput existingData)
            (UpdateRuleGroup goneConn 0 (updateRuleGroupInput existingData)).1
            None;
          DescribeRuleGroupCall (describeInput exampleArn) describeGone.1
            (Some notFound)] |}.
Proof.
  destruct (resourceRuleGroupUpdate_single_read goneConn existingData startWorld)
    as [Hupdate (r & Hread & _ & Hgone)].
  rewrite Hupdate, Hread. rewrite (Hgone notFound eq_refl eq_refl). reflexivity.
Defined.

(** The waiter on a rule group that is [DELETING] at two describes and gone
    at the third: success after 600 milliseconds (sleeps of 200 and 400
    milliseconds) and three describe calls. *)
Example waitRuleGroupDeleted_after_two_ticks :
  exists w',
    waitRuleGroupDeleted vanishingConn exampleArn deleteTimeout startWorld =
      Returns (None, None) w'
    /\ now w' = 600 * Millisecond
    /\ length (trace w') = 3%nat.
Proof. eexists. repeat split. Qed.

(** * Where the code departs from the claims *)

(** The create and the update return success on a rule group in any
    status: no list of target statuses short of all of them would do. *)
Lemma create_succeeds_in_any_status states status :
  create_polls_until states -> In status states.
Proof.
  intros Hpolls.
  assert (Hcreate : exists d' w',
             resourceRuleGroupCreate (statusConn status 0) newData startWorld =
               Returns (d', []) w'
             /\ last (trace w') =
                Some (DescribeRuleGroupCall (describeInput exampleArn)
                        (inStatus status).1 None)).
  { do 2 eexists. split; reflexivity. }
  destruct Hcreate as (d' & w' & Hcreate & Hlast').
  destruct (Hpolls _ _ _ _ _ Hcreate) as (ev & st & Hlast & Hstatus & Hin).
  rewrite Hlast' in Hlast. injection Hlast as <-. injection Hstatus as <-.
  exact Hin.
Qed.

Lemma update_succeeds_in_any_status states status :
  update_polls_until states -> In status states.
Proof.
  intros Hpolls.
  assert (Hupdate : exists d' w',
             resourceRuleGroupUpdate (statusConn status 0) existingData
               startWorld = Returns (d', []) w'
             /\ last (trace w') =
                Some (DescribeRuleGroupCall (describeInput exampleArn)
                        (inStatus status).1 None)).
  { do 2 eexists. split; reflexivity. }
  destruct Hupdate as (d' & w' & Hupdate & Hlast').
  destruct (Hpolls _ _ _ _ _ Hupdate) as (ev & st & Hlast & Hstatus & Hin).
  rewrite Hlast' in Hlast. injection Hlast as <-. injection Hstatus as <-.
  exact Hin.
Qed.

(** C1 as stated fails.  The service reports the new rule group [DELETING]
    at the first describe and [ACTIVE] afterwards; the create returns
    success after that first describe. *)
Lemma create_polls_until_refuted : ~ create_polls_until ["ACTIVE"].
Proof.
  intros Hpolls.
  assert (Hcreate : exists d' w',
             resourceRuleGroupCreate settlingConn newData startWorld =
               Returns (d', []) w'
             /\ last (trace w') =
                Some (DescribeRuleGroupCall (describeInput exampleArn)
                        (inStatus "DELETING").1 None)).
  { do 2 eexists. split; reflexivity. }
  destruct Hcreate as (d' & w' & Hcreate & Hlast').
  destruct (Hpolls _ _ _ _ _ Hcreate) as (ev & status & Hlast & Hstatus & Hin).
  rewrite Hlast' in Hlast. injection Hlast as <-. injection Hstatus as <-.
  destruct Hin as [Heq|[]]. discriminate Heq.
Qed.

(** C6 as stated fails.  The rule group is [DELETING] at the describe that
    follows the update call; the update returns success. *)
Lemma update_polls_until_refuted : ~ update_polls_until ["ACTIVE"].
Proof.
  intros Hpolls.
  assert (Hupdate : exists d' w',
             resourceRuleGroupUpdate (statusConn "DELETING" 0) existingData
               startWorld = Returns (d', []) w'
             /\ last (trace w') =
                Some (DescribeRuleGroupCall (describeInput exampleArn)
                        (inStatus "DELETING").1 None)).
  { do 2 eexists. split; reflexivity. }
  destruct Hupdate as (d' & w' & Hupdate & Hlast').
  destruct (Hpolls _ _ _ _ _ Hupdate) as (ev & status & Hlast & Hstatus & Hin).
  rewrite Hlast' in Hlast. injection Hlast as <-. injection Hstatus as <-.
  destruct Hin as [Heq|[]]. discriminate Heq.
Qed.

(** C4 as stated fails, for [ACTIVE] and for a status the SDK does not
    know: the waiter returns an error at the first describe, at time 0. *)
Lemma unlisted_status_not_transient :
  ~ transient_in_delete_wait "ACTIVE"
  /\ ~ transient_in_delete_wait "SOMETHING_NEW".
Proof.
  assert (Hnot : forall status,
             waitRuleGroupDeleted (statusConn status 0) exampleArn deleteTimeout
               startWorld =
             Returns (Some "pass tcp any any -> any any (sid:1;)",
                      Some (UnexpectedStateError None status []))
               {| now := 0;
                  trace := [describeCall (statusConn status 0) exampleArn
                              startWorld] |} ->
             ~ transient_in_delete_wait status).
  { intros status Hwait Htransient.
    destruct (Htransient (statusConn status 0) exampleArn deleteTimeout startWorld)
      as (lastErr & lastState & w' & Hwait' & _).
    - reflexivity.
    - intros n. do 2 eexists. repeat split; reflexivity.
    - rewrite Hwait in Hwait'. discriminate Hwait'. }
  split; apply Hnot; reflexivity.
Qed.

(** C8 as stated fails.  Every describe answers [DELETING] after 24
    seconds; the waiter returns 622.6 seconds after it started, later than
    the timeout of 600 seconds plus the longest interval of 10 seconds. *)
Lemma bounded_wait_claim_refuted : ~ bounded_wait_claim.
Proof.
  intros Hbounded.
  destruct (Hbounded (statusConn "DELETING" (24 * 1000000000)) exampleArn
              deleteTimeout startWorld)
    as (lastErr & lastState & w' & Hwait & Hbound).
  - reflexivity.
  - apply statusConn_always_deleting.
  - assert (Hat : finished_at
                    (waitRuleGroupDeleted
                       (statusConn "DELETING" (24 * 1000000000)) exampleArn
                       deleteTimeout startWorld) = Some 622600000000)
      by (vm_compute; reflexivity).
    rewrite Hwait in Hat. injection Hat as Hat. rewrite Hat in Hbound.
    vm_compute in Hbound. apply Hbound. reflexivity.
Qed.

(** C9 as stated fails.  The [rules] string is present and unchanged, the
    [rule_group] block has changed: the request carries the block and no
    [Rules]. *)
Lemma rules_take_precedence_refuted : ~ rules_take_precedence.
Proof.
  intros Hprecedence.
  destruct (Hprecedence blockChangedData) as [_ Hrules].
  destruct Hrules as [Hset _]; [right; reflexivity|].
  apply Hset. reflexivity.
Qed.

(** * The further properties at concrete inputs *)

(** The read of a rule group whose describe reply lacks the rule group:
    the identifier is cleared. *)
Lemma resourceRuleGroupRead_empty_result_witness :
  resourceRuleGroupRead headlessConn existingData startWorld =
  Returns (SetId "" existingData, [])
    {| now := 0;
       trace := [DescribeRuleGroupCall (describeInput exampleArn)
                   (Some headlessOutput) None] |}.
Proof.
  exact (proj2 (resourceRuleGroupRead_empty_result headlessConn existingData
                  startWorld headlessOutput (exampleResponse "ACTIVE")
                  eq_refl eq_refl eq_refl)).
Defined.

(** The read of a rule group that is gone keeps everything but the
    identifier. *)
Lemma resourceRuleGroupRead_preserves_witness :
  prior (SetId "" existingData) = prior existingData
  /\ IsNewResource (SetId "" existingData) = IsNewResource existingData
  /\ TagsIn (SetId "" existingData) = TagsIn existingData
  /\ Get attr_rules (SetId "" existingData) = Get attr_rules existingData
  /\ (Id (SetId "" existingData) = Id existingData
      \/ (Id (SetId "" existingData) = ""
          /\ IsNewResource existingData = false /\ @nil Diagnostic = []))
  /\ (@nil Diagnostic <> [] -> SetId "" existingData = existingData).
Proof.
  exact (resourceRuleGroupRead_preserves goneConn existingData startWorld
           (SetId "" existingData) []
           {| now := 0;
              trace := [describeCall goneConn exampleArn startWorld] |}
           eq_refl).
Defined.

(** A delete that the service throttles: one call, one diagnostic. *)
Lemma resourceRuleGroupDelete_rejected_witness :
  resourceRuleGroupDelete throttledConn existingData startWorld =
  Returns (existingData,
           [Errorf "deleting NetworkFirewall Rule Group (%s): %s" [exampleArn]
              (AwsError throttled)])
    {| now := 0;
       trace := [DeleteRuleGroupCall (deleteInput exampleArn)
                   (Some {| deleted_RuleGroupResponse := None |})
                   (Some throttled)] |}.
Proof.
  apply (resourceRuleGroupDelete_rejected throttledConn existingData startWorld
           (Some {| deleted_RuleGroupResponse := None |}) throttled).
  - reflexivity.
  - discriminate.
  - reflexivity.
  - reflexivity.
Defined.

(** A delete whose wait meets a failing describe. *)
Lemma resourceRuleGroupDelete_wait_failure_witness :
  resourceRuleGroupDelete brokenConn existingData startWorld =
  Returns (existingData,
           [Errorf "waiting for NetworkFirewall Rule Group (%s) delete : %s"
              [exampleArn] (AwsError internalError)])
    {| now := 0;
       trace := [DeleteRuleGroupCall (deleteInput exampleArn) deleteAccepted.1
                   None;
                 DescribeRuleGroupCall (describeInput exampleArn) None
                   (Some internalError)] |}.
Proof.
  refine (proj2 (resourceRuleGroupDelete_wait_failure brokenConn existingData
                   startWorld deleteAccepted.1 None (AwsError internalError) _
                   _ _ _ _ _)); reflexivity.
Defined.

(** The wait for a rule group that stays [DELETING], with a timeout of one
    minute and describes of two seconds. *)
Lemma waitRuleGroupDeleted_bounded_witness :
  exists r w',
    waitRuleGroupDeleted (statusConn "DELETING" 2000000000) exampleArn Minute
      startWorld = Returns r w'
    /\ now w' <= now startWorld + Minute + refreshGracePeriod.
Proof.
  apply (waitRuleGroupDeleted_bounded (statusConn "DELETING" 2000000000)
           exampleArn Minute startWorld).
  reflexivity.
Defined.

(** Three addresses: a definition, an empty definition, no definition. *)
Lemma expandAddresses_flattenAddresses_witness :
  expandAddresses
    [VMap {[ "address_definition" := VString "10.0.0.0/16" ]};
     VMap {[ "address_definition" := VString "" ]};
     VMap {[ "address_definition" := VString "" ]}]
  = Some [Some {| AddressDefinition := Some "10.0.0.0/16" |};
          Some {| AddressDefinition := None |};
          Some {| AddressDefinition := None |}].
Proof.
  exact (expandAddresses_flattenAddresses exampleAddresses _ eq_refl).
Defined.

(** Two port ranges, the second without its upper port. *)
Lemma expandPortRanges_flattenPortRanges_witness :
  expandPortRanges
    [VMap {[ "from_port" := VInt 443; "to_port" := VInt 443 ]};
     VMap {[ "from_port" := VInt 1024; "to_port" := VInt 0 ]}]
  = Some [Some {| FromPort := Some 443; ToPort := Some 443 |};
          Some {| FromPort := Some 1024; ToPort := Some 0 |}].
Proof.
  exact (expandPortRanges_flattenPortRanges examplePortRanges _ eq_refl).
Defined.

(** Three references, of which one has no ARN and one no key. *)
Lemma expandIPSetReferences_flattenIPSetReferences_witness :
  expandIPSetReferences
    (reverse (flattenIPSetReferences (Some exampleReferences)
                (map_to_list exampleReferences)))
  = Some {[ "HOME" :=
              Some {| ReferenceArn :=
                        Some "arn:aws:ec2:us-east-1:123456789012:prefix-list/pl-1" |} ]}.
Proof.
  exact (proj2 (expandIPSetReferences_flattenIPSetReferences exampleReferences
                  (map_to_list exampleReferences)
                  (reverse (flattenIPSetReferences (Some exampleReferences)
                              (map_to_list exampleReferences)))
                  (reflexivity _) (reverse_Permutation _))).
Defined.
